(** * Eureka JS client: a shallow embedding of [src/EurekaClient.js]

    The client registers an instance with a Eureka server, renews the
    registration with heartbeats and keeps a local cache of the registry.
    This file embeds the methods of the [Eureka] class and proves the
    properties of its registration, heartbeat, host resolution and registry
    cache.

    Modelling choices, all visible in the definitions below:
    - a value of the program (the result of [JSON.parse], a method argument)
      is a [value]; its properties are read by [get] and [get_index], which
      the methods use for names written in their text only ([applications],
      [application], [instance], [name], [length], [vipAddress], the fields
      of the configuration) and for the index 0, none of which is a member
      of a built-in prototype;
    - the two indices of the cache are plain objects used as maps: an
      [Index] has its own properties and a prototype, reading it follows the
      prototype chain ([read]) and writing it is the assignment of the
      language ([assign]), for which the key [__proto__] replaces the
      prototype; what a lookup returns is a [member], either a value or a
      built-in member found on the chain;
    - numbers are integers and print in decimal; strings are sequences of
      bytes, of which the methods only ask whether there is any and what the
      runtime's case conversion makes of them; the string form of an object
      is the default one, objects that carry members named [toString] or
      [valueOf] of their own are not distinguished;
    - the network, the resolver, [Math.random], [JSON.parse], the case
      conversions of strings and the names of the members of
      [Object.prototype] and [Array.prototype] belong to the runtime: they
      are the fields of an environment [Env] that every theorem quantifies
      over, together with two facts about upper-cased strings;
    - a method is a computation [M A] over the client object: it returns the
      new client, the events it caused in order (requests, log lines,
      callback invocations, and a snapshot of the client after every write)
      and either a result or the exception it threw;
    - the two cache objects ([this.cache] and the local [newCache] of
      [transformRegistry]) live in a heap of cache cells, so that writing
      through one reference and reading through another is explicit. *)

From Stdlib Require Import ZArith QArith Qround Ascii String.
From stdpp Require Import base gmap strings list pretty.
Close Scope Q_scope.
Set Warnings "-register-all".

(** ** Values *)

Inductive value :=
  | VUndefined
  | VNull
  | VBool (b : bool)
  | VNum (z : Z)
  | VStr (s : string)
  | VArr (l : list value)
  | VObj (o : gmap string value).

(** [!v] is [negb (truthy v)]. *)
Definition truthy (v : value) : bool :=
  match v with
  | VUndefined | VNull => false
  | VBool b => b
  | VNum z => negb (z =? 0)%Z
  | VStr s => negb (String.eqb s "")
  | VArr _ | VObj _ => true
  end.

Definition nullish (v : value) : bool :=
  match v with
  | VUndefined | VNull => true
  | _ => false
  end.

(** String coercion, as done by a template literal and by a computed
    property key. *)
Fixpoint ToString (v : value) : string :=
  match v with
  | VUndefined => "undefined"
  | VNull => "null"
  | VBool b => if b then "true" else "false"
  | VNum z => pretty z
  | VStr s => s
  | VArr l =>
      (fix join (l : list value) : string :=
         match l with
         | [] => ""
         | [x] => if nullish x then "" else ToString x
         | x :: r => (if nullish x then "" else ToString x) +:+ "," +:+ join r
         end) l
  | VObj _ => "[object Object]"
  end.

(** Case conversion of the ASCII letters, for the runtimes of the scenarios. *)
Definition upper_char (c : ascii) : ascii :=
  let n := nat_of_ascii c in
  if (97 <=? n) && (n <=? 122) then ascii_of_nat (n - 32) else c.

Definition lower_char (c : ascii) : ascii :=
  let n := nat_of_ascii c in
  if (65 <=? n) && (n <=? 90) then ascii_of_nat (n + 32) else c.

Fixpoint ascii_toUpperCase (s : string) : string :=
  match s with
  | EmptyString => EmptyString
  | String c r => String (upper_char c) (ascii_toUpperCase r)
  end.

Fixpoint ascii_toLowerCase (s : string) : string :=
  match s with
  | EmptyString => EmptyString
  | String c r => String (lower_char c) (ascii_toLowerCase r)
  end.

(** Some character of the string is one of [a] .. [z]. *)
Fixpoint has_lower (s : string) : bool :=
  match s with
  | EmptyString => false
  | String c r =>
      let n := nat_of_ascii c in
      ((97 <=? n) && (n <=? 122)) || has_lower r
  end.

(** ** Exceptions *)

Inductive js_error :=
  | Error (message : string)
  | TypeError (message : string)
  | RangeError (message : string)
  | SyntaxError (message : string).

(** [`${err}`] *)
Definition error_toString (e : js_error) : string :=
  let show name message :=
    if String.eqb message "" then name else name +:+ ": " +:+ message in
  match e with
  | Error m => show "Error" m
  | TypeError m => show "TypeError" m
  | RangeError m => show "RangeError" m
  | SyntaxError m => show "SyntaxError" m
  end.

Inductive completion (A : Type) :=
  | Normal (a : A)
  | Throw (e : js_error).
Arguments Normal {A} a.
Arguments Throw {A} e.

(** ** Property access *)

(** [v.k] for a property name [k]. *)
Definition get (v : value) (k : string) : completion value :=
  match v with
  | VUndefined | VNull =>
      Throw (TypeError ("Cannot read property '" +:+ k +:+ "' of " +:+ ToString v))
  | VObj o => Normal (default VUndefined (o !! k))
  | VArr l =>
      Normal (if String.eqb k "length" then VNum (Z.of_nat (length l)) else VUndefined)
  | VStr s =>
      Normal (if String.eqb k "length" then VNum (Z.of_nat (String.length s)) else VUndefined)
  | VBool _ | VNum _ => Normal VUndefined
  end.

(** [v[i]] for an index [i]. *)
Definition get_index (v : value) (i : nat) : completion value :=
  match v with
  | VUndefined | VNull =>
      Throw (TypeError ("Cannot read property '" +:+ pretty i +:+ "' of " +:+ ToString v))
  | VObj o => Normal (default VUndefined (o !! pretty i))
  | VArr l => Normal (default VUndefined (l !! i))
  | VStr s =>
      Normal (match String.get i s with
              | Some c => VStr (String c EmptyString)
              | None => VUndefined
              end)
  | VBool _ | VNum _ => Normal VUndefined
  end.

(** ** Configuration (the merged and validated [this.config]) *)

Record DataCenterInfo := {
  dc_name : option string;
  dc_metadata : gmap string value;
}.

Record InstanceConfig := {
  inst_app : string;
  inst_vipAddress : string;
  inst_port : Z;
  inst_dataCenterInfo : DataCenterInfo;
  inst_instanceId : option string;
  inst_hostName : option string;
  inst_status : option string;
}.

Record EurekaConfig := {
  eureka_host : string;
  eureka_port : Z;
  eureka_servicePath : string;
  eureka_ssl : bool;
  eureka_useDns : bool;
  eureka_ec2Region : option string;
}.

Record Config := {
  cfg_instance : InstanceConfig;
  cfg_eureka : EurekaConfig;
}.

(** ** The client object *)

(** The prototype of a plain object: [Object.prototype] as long as nothing
    else was assigned to [__proto__], then the assigned object, or none after
    the assignment of [null]. *)
Inductive prototype :=
  | ObjectPrototype
  | ProtoOf (p : value)
  | NoPrototype.

(** A plain object used as a map: [{}] and what the assignments make of it. *)
Record Index := {
  own : gmap string value;
  proto : prototype;
}.

Definition empty_index : Index := {| own := ∅; proto := ObjectPrototype |}.

(** What reading a property of an index gives: a value, or a member of a
    built-in prototype (a function, or [Object.prototype] itself), named by
    its path. *)
Inductive member :=
  | Data (v : value)
  | Native (path : string).

Definition truthy_member (m : member) : bool :=
  match m with
  | Data v => truthy v
  | Native _ => true
  end.

(** [Array.isArray(v)] *)
Definition is_array (v : value) : bool :=
  match v with
  | VArr _ => true
  | _ => false
  end.

(** The array index that a property key spells, below a length. *)
Definition index_of_key (k : string) (n : nat) : option nat :=
  head (filter (λ i, String.eqb (pretty i) k = true) (seq 0 n)).

(** The own property [k] of a value that serves as a prototype. *)
Definition own_property (p : value) (k : string) : option value :=
  match p with
  | VObj o => o !! k
  | VArr l =>
      if String.eqb k "length" then Some (VNum (Z.of_nat (length l)))
      else index_of_key k (length l) ≫= λ i, l !! i
  | _ => None
  end.

(** The assignment [o[k] = v] on a plain object. Every key but [__proto__]
    becomes, or stays, an own property. For [__proto__] the setter inherited
    from [Object.prototype] runs, unless the object has the property itself,
    has no prototype, or meets a data property of that name on its prototype
    first: the setter replaces the prototype by an object or by [null] and
    ignores every other value. *)
Definition assign (o : Index) (k : string) (v : value) : Index :=
  let define := {| own := <[k := v]> (own o); proto := proto o |} in
  let set_prototype :=
    match v with
    | VArr _ | VObj _ => {| own := own o; proto := ProtoOf v |}
    | VNull => {| own := own o; proto := NoPrototype |}
    | _ => o
    end in
  if String.eqb k "__proto__" then
    match own o !! k with
    | Some _ => define
    | None =>
        match proto o with
        | ObjectPrototype => set_prototype
        | NoPrototype => define
        | ProtoOf p =>
            match own_property p k with
            | Some _ => define
            | None => set_prototype
            end
        end
    end
  else define.

(** [{ app: {}, vip: {} }] *)
Record Cache := {
  app : Index;
  vip : Index;
}.

Definition empty_cache : Cache := {| app := empty_index; vip := empty_index |}.

Abbreviation loc := nat.

(** [this]: the configuration and the reference [this.cache] into the heap
    of cache objects. *)
Record Eureka := {
  config : Config;
  heap : list Cache;
  cache : loc;
}.

(** The object that [this.cache] refers to: what a reader sees. *)
Definition this_cache (s : Eureka) : Cache :=
  default empty_cache (heap s !! cache s).

(** The constructor's last statement: [this.cache = { app: {}, vip: {} }]. *)
Definition new_Eureka (c : Config) : Eureka :=
  {| config := c; heap := [empty_cache]; cache := 0 |}.

(** ** Runtime environment and events *)

Inductive Method := GET | POST | PUT | DELETE.

Record Request := {
  req_method : Method;
  req_url : string;
  req_body : option InstanceConfig;
}.

Record Response := { statusCode : Z }.

(** The arguments [(error, response, body)] of a request callback. *)
Record Reply := {
  rp_error : option js_error;
  rp_response : option Response;
  rp_body : value;
}.

(** The arguments [(err, addresses)] of a [dns.resolveTxt] callback. *)
Inductive dns_reply :=
  | DnsErr (err : js_error)
  | DnsOk (addresses : list (list string)).

(** The runtime. [Object_prototype] and [Array_prototype] are the names of
    the members of the two built-in prototypes, [__proto__] apart. The two
    facts: upper-casing keeps a string empty or non-empty, and an upper-cased
    string is neither [__proto__] nor the name of a member of
    [Object.prototype] (those names all hold a lower-case letter). *)
Record Env := {
  request : Request → Reply;
  dns_resolveTxt : string → dns_reply;
  Math_random : Q;
  JSON_parse : string → completion value;
  toUpperCase : string → string;
  toLowerCase : string → string;
  Object_prototype : gset string;
  Array_prototype : gset string;
  toUpperCase_empty : ∀ s, toUpperCase s = "" ↔ s = "";
  toUpperCase_own : ∀ s, toUpperCase s ≠ "__proto__" ∧ toUpperCase s ∉ Object_prototype;
}.

Inductive level := LogDebug | LogInfo | LogWarn | LogError.

Inductive log_arg :=
  | LStr (s : string)
  | LErr (e : js_error)
  | LTxt (records : list (list string)).

Inductive operation := OpRegister | OpDeregister | OpRenew | OpFetchRegistry.

Inductive event :=
  | Invoke (op : operation)
  | Log (l : level) (args : list log_arg)
  | Http (r : Request)
  | DnsTxt (name : string)
  | SetTimeout (ms : Z)
  | ClearTimeout
  | Mutate (s : Eureka)
  | Resolved (host : value)
  | Callback (arg : option js_error).

(** ** Computations *)

Record Res (A : Type) := MkRes {
  st : Eureka;
  tr : list event;
  out : completion A;
}.
Arguments MkRes {A} st tr out.
Arguments st {A} r.
Arguments tr {A} r.
Arguments out {A} r.

Definition M (A : Type) : Type := Eureka → Res A.

Definition ret {A} (a : A) : M A := λ s, MkRes s [] (Normal a).

Definition throw {A} (e : js_error) : M A := λ s, MkRes s [] (Throw e).

Definition bind {A B} (m : M A) (f : A → M B) : M B := λ s,
  let r := m s in
  match out r with
  | Normal a => let r' := f a (st r) in MkRes (st r') (tr r ++ tr r') (out r')
  | Throw e => MkRes (st r) (tr r) (Throw e)
  end.

#[global] Instance M_ret : MRet M := @ret.
#[global] Instance M_bind : MBind M := λ A B f m, bind m f.

Definition lift {A} (c : completion A) : M A :=
  match c with
  | Normal a => ret a
  | Throw e => throw e
  end.

Definition gets {A} (f : Eureka → A) : M A := λ s, MkRes s [] (Normal (f s)).

Definition emit (e : event) : M unit := λ s, MkRes s [e] (Normal tt).

(** A write to the client or to the heap; the new client is recorded. *)
Definition modify (f : Eureka → Eureka) : M unit := λ s,
  let s' := f s in MkRes s' [Mutate s'] (Normal tt).

Definition log (l : level) (args : list log_arg) : M unit := emit (Log l args).

(** [xs.forEach(f)] *)
Fixpoint forEach {A} (f : A → M unit) (xs : list A) : M unit :=
  match xs with
  | [] => ret tt
  | x :: r => f x ;; forEach f r
  end.

(** The callbacks handed in by a caller that only records what it is told. *)
Definition report (arg : option js_error) : M unit := emit (Callback arg).
Definition noop {A} (_ : A) : M unit := ret tt.

(** What a trace tells: the arguments the caller's callback was invoked with,
    the requests sent, the names queried, the states the client went through,
    and how often an operation was started. *)
Definition reported (t : list event) : list (option js_error) :=
  omap (λ e, match e with Callback a => Some a | _ => None end) t.

Definition requests (t : list event) : list Request :=
  omap (λ e, match e with Http r => Some r | _ => None end) t.

Definition dns_queries (t : list event) : list string :=
  omap (λ e, match e with DnsTxt n => Some n | _ => None end) t.

Definition snapshots (t : list event) : list Eureka :=
  omap (λ e, match e with Mutate s => Some s | _ => None end) t.

Definition same_operation (a b : operation) : bool :=
  match a, b with
  | OpRegister, OpRegister
  | OpDeregister, OpDeregister
  | OpRenew, OpRenew
  | OpFetchRegistry, OpFetchRegistry => true
  | _, _ => false
  end.

Fixpoint invocations (op : operation) (t : list event) : nat :=
  match t with
  | [] => 0
  | Invoke o :: r => (if same_operation o op then 1 else 0) + invocations op r
  | _ :: r => invocations op r
  end.

(** ** The methods of the client *)

Section Client.
Context (env : Env).

(** ** Host resolution and base URL *)

(** Truthiness of an optional string field of the configuration. *)
Definition is_set (field : option string) : bool :=
  match field with
  | Some text => negb (String.eqb text "")
  | None => false
  end.

(** [v.toUpperCase()]: only a string has the method. *)
Definition call_toUpperCase (v : value) : completion string :=
  match v with
  | VStr s => Normal (toUpperCase env s)
  | VUndefined | VNull =>
      Throw (TypeError ("Cannot read property 'toUpperCase' of " +:+ ToString v))
  | _ => Throw (TypeError "toUpperCase is not a function")
  end.

(** [get amazonDataCenter()] *)
Definition amazonDataCenter (c : Config) : bool :=
  let name := dc_name (inst_dataCenterInfo (cfg_instance c)) in
  is_set name && String.eqb (toLowerCase env (default "" name)) "amazon".

(** [get instanceId()] *)
Definition instanceId (c : Config) : value :=
  if is_set (inst_instanceId (cfg_instance c))
  then from_option VStr VUndefined (inst_instanceId (cfg_instance c))
  else if amazonDataCenter c
  then default VUndefined
         (dc_metadata (inst_dataCenterInfo (cfg_instance c)) !! "instance-id")
  else from_option VStr VUndefined (inst_hostName (cfg_instance c)).

(** [dns.resolveTxt(name, callback)]: the query is issued and the callback
    runs on the runtime's answer. *)
Definition resolveTxt (name : string) (callback : dns_reply → M unit) : M unit :=
  emit (DnsTxt name);; callback (dns_resolveTxt env name).

(** [Math.floor(Math.random() * n)] *)
Definition random_index (n : nat) : Z :=
  Qfloor (Math_random env * inject_Z (Z.of_nat n))%Q.

(** [xs[i]] in a template literal, for an array of strings. *)
Definition element_text (xs : list string) (i : Z) : string :=
  if (i <? 0)%Z then "undefined"
  else from_option id "undefined" (xs !! Z.to_nat i).

Definition locateEurekaHostUsingDns (callback : value → M unit) : M unit :=
  c ← gets config;
  let host := eureka_host (cfg_eureka c) in
  let ec2Region := default "" (eureka_ec2Region (cfg_eureka c)) in
  if negb (is_set (eureka_ec2Region (cfg_eureka c)))
  then throw (Error ("EC2 region was undefined. " +:+
         "config.eureka.ec2Region must be set to resolve Eureka using DNS records."))
  else
      resolveTxt ("txt." +:+ ec2Region +:+ "." +:+ host) (λ reply,
        match reply with
        | DnsErr err =>
            throw (Error ("Error resolving eureka server list for region [" +:+
              ec2Region +:+ "] using DNS: [" +:+ error_toString err +:+ "]"))
        | DnsOk addresses =>
            match addresses with
            | [] => throw (TypeError "Cannot read property 'length' of undefined")
            | first :: _ =>
                let random := random_index (length first) in
                resolveTxt ("txt." +:+ element_text first random) (λ reply,
                  match reply with
                  | DnsErr resolveErr =>
                      throw (Error ("Error locating eureka server using DNS: [" +:+
                        error_toString resolveErr +:+ "]"))
                  | DnsOk results =>
                      log LogDebug [LStr "Found Eureka Server @ "; LTxt results];;
                      callback (from_option VStr VUndefined (head (concat results)))
                  end)
            end
        end).

Definition lookupCurrentEurekaHost (callback : value → M unit) : M unit :=
  c ← gets config;
  if amazonDataCenter c && eureka_useDns (cfg_eureka c)
  then locateEurekaHostUsingDns (λ resolvedHost, callback resolvedHost)
  else callback (VStr (eureka_host (cfg_eureka c))).

Definition buildEurekaUrl (callback : string → M unit) : M unit :=
  lookupCurrentEurekaHost (λ eurekaHost,
    c ← gets config;
    let port := eureka_port (cfg_eureka c) in
    let servicePath := eureka_servicePath (cfg_eureka c) in
    let host := if eureka_ssl (cfg_eureka c) then "https" else "http" in
    callback (host +:+ "://" +:+ ToString eurekaHost +:+ ":" +:+ pretty port +:+ servicePath)).

(** [request.post/put/get/del(options, callback)] *)
Definition send (r : Request) (callback : Reply → M unit) : M unit :=
  emit (Http r);; callback (request env r).

(** ** Registration and heartbeat *)

Definition set_status (status : string) (s : Eureka) : Eureka :=
  let c := config s in
  let i := cfg_instance c in
  {| config := {| cfg_instance :=
                    {| inst_app := inst_app i;
                       inst_vipAddress := inst_vipAddress i;
                       inst_port := inst_port i;
                       inst_dataCenterInfo := inst_dataCenterInfo i;
                       inst_instanceId := inst_instanceId i;
                       inst_hostName := inst_hostName i;
                       inst_status := Some status |};
                  cfg_eureka := cfg_eureka c |};
     heap := heap s;
     cache := cache s |}.

(** [`${this.config.instance.app}/${this.instanceId}`] *)
Definition instance_path (c : Config) : string :=
  inst_app (cfg_instance c) +:+ "/" +:+ ToString (instanceId c).

Definition register (callback : option js_error → M unit) : M unit :=
  emit (Invoke OpRegister);;
  modify (set_status "UP");;
  emit (SetTimeout 10000);;
  buildEurekaUrl (λ eurekaUrl,
    c ← gets config;
    send {| req_method := POST;
            req_url := eurekaUrl +:+ inst_app (cfg_instance c);
            req_body := Some (cfg_instance c) |} (λ reply,
      emit ClearTimeout;;
      match rp_error reply, rp_response reply with
      | None, None => throw (TypeError "Cannot read property 'statusCode' of undefined")
      | None, Some response =>
          if (statusCode response =? 204)%Z
          then
            c ← gets config;
            log LogInfo [LStr "registered with eureka: "; LStr (instance_path c)];;
            callback None
          else
            callback (Some (Error ("eureka registration FAILED: status: " +:+
              pretty (statusCode response) +:+ " body: " +:+ ToString (rp_body reply))))
      | Some error, _ => callback (Some error)
      end)).

Definition deregister (callback : option js_error → M unit) : M unit :=
  emit (Invoke OpDeregister);;
  buildEurekaUrl (λ eurekaUrl,
    c ← gets config;
    send {| req_method := DELETE;
            req_url := eurekaUrl +:+ instance_path c;
            req_body := None |} (λ reply,
      match rp_error reply, rp_response reply with
      | None, None => throw (TypeError "Cannot read property 'statusCode' of undefined")
      | None, Some response =>
          if (statusCode response =? 200)%Z
          then
            c ← gets config;
            log LogInfo [LStr "de-registered with eureka: "; LStr (instance_path c)];;
            callback None
          else
            callback (Some (Error ("eureka deregistration FAILED: status: " +:+
              pretty (statusCode response) +:+ " body: " +:+ ToString (rp_body reply))))
      | Some error, _ => callback (Some error)
      end)).

Definition renew : M unit :=
  emit (Invoke OpRenew);;
  buildEurekaUrl (λ eurekaUrl,
    c ← gets config;
    send {| req_method := PUT;
            req_url := eurekaUrl +:+ instance_path c;
            req_body := None |} (λ reply,
      let retry_line :=
        LStr ("status: " +:+
              from_option (λ response, pretty (statusCode response)) "unknown"
                (rp_response reply) +:+
              " body: " +:+ ToString (rp_body reply)) in
      match rp_error reply, rp_response reply with
      | None, None => throw (TypeError "Cannot read property 'statusCode' of undefined")
      | None, Some response =>
          if (statusCode response =? 200)%Z
          then log LogDebug [LStr "eureka heartbeat success"]
          else if (statusCode response =? 404)%Z
          then
            log LogWarn [LStr "eureka heartbeat FAILED, Re-registering app"];;
            register noop
          else
            log LogWarn [LStr "eureka heartbeat FAILED, will retry."; retry_line]
      | Some error, _ =>
          log LogError [LStr "An error in the request occured."; LErr error];;
          log LogWarn [LStr "eureka heartbeat FAILED, will retry."; retry_line]
      end)).

(** ** Registry cache *)

(** A property that the receiver has not itself and that no parsed value on
    its prototype chain has: the getter of [__proto__] gives the receiver's
    prototype; the members of [Array.prototype], when an array is on the
    chain, come before those of [Object.prototype]. *)
Definition inherited (receiver_prototype : member) (array : bool) (k : string) : member :=
  if String.eqb k "__proto__" then receiver_prototype
  else if array && bool_decide (k ∈ Array_prototype env)
  then Native ("Array.prototype." +:+ k)
  else if bool_decide (k ∈ Object_prototype env)
  then Native ("Object.prototype." +:+ k)
  else Data VUndefined.

(** [o[k]] on a plain object: the own property, or the first one found on
    the prototype chain. *)
Definition read (o : Index) (k : string) : member :=
  match own o !! k with
  | Some v => Data v
  | None =>
      match proto o with
      | NoPrototype => Data VUndefined
      | ObjectPrototype => inherited (Native "Object.prototype") false k
      | ProtoOf p =>
          match own_property p k with
          | Some v => Data v
          | None => inherited (Data p) (is_array p) k
          end
      end
  end.

Definition getInstancesByAppId (appId : value) : M member :=
  if negb (truthy appId)
  then throw (RangeError "Unable to query instances with no appId")
  else
    key ← lift (call_toUpperCase appId);
    c ← gets this_cache;
    let instances := read (app c) key in
    (if negb (truthy_member instances)
     then log LogWarn [LStr ("Unable to retrieve instances for appId: " +:+ ToString appId)]
     else ret tt);;
    ret instances.

Definition getInstancesByVipAddress (vipAddress : value) : M member :=
  if negb (truthy vipAddress)
  then throw (RangeError "Unable to query instances with no vipAddress")
  else
    c ← gets this_cache;
    let instances := read (vip c) (ToString vipAddress) in
    (if negb (truthy_member instances)
     then log LogWarn [LStr ("Unable to retrieves instances for vipAddress: " +:+
                             ToString vipAddress)]
     else ret tt);;
    ret instances.

(** [{ app: {}, vip: {} }]: a new cache object; its reference is returned. *)
Definition alloc_cache : M loc :=
  l ← gets (λ s, length (heap s));
  modify (λ s, {| config := config s; heap := heap s ++ [empty_cache]; cache := cache s |});;
  ret l.

(** [cache.app[key] = v] and [cache.vip[key] = v] through the reference. *)
Definition put_app (key : string) (v : value) (c : Cache) : Cache :=
  {| app := assign (app c) key v; vip := vip c |}.
Definition put_vip (key : string) (v : value) (c : Cache) : Cache :=
  {| app := app c; vip := assign (vip c) key v |}.

Definition store (cache_ref : loc) (f : Cache → Cache) : M unit :=
  modify (λ s, {| config := config s; heap := alter f cache_ref (heap s); cache := cache s |}).

(** [this.cache = newCache] *)
Definition assign_cache (cache_ref : loc) : M unit :=
  modify (λ s, {| config := config s; heap := heap s; cache := cache_ref |}).

Definition transformApp (application : value) (cache_ref : loc) : M unit :=
  instance ← lift (get application "instance");
  len ← lift (get instance "length");
  if truthy len then
    name ← lift (get application "name");
    key ← lift (call_toUpperCase name);
    store cache_ref (put_app key instance);;
    first ← lift (get_index instance 0);
    vipAddress ← lift (get first "vipAddress");
    store cache_ref (put_vip (ToString vipAddress) instance)
  else
    let instances := VArr [instance] in
    vipAddress ← lift (get instance "vipAddress");
    store cache_ref (put_vip (ToString vipAddress) instances);;
    name ← lift (get application "name");
    key ← lift (call_toUpperCase name);
    store cache_ref (put_app key instances).

Definition transformRegistry (registry : value) : M unit :=
  if negb (truthy registry)
  then log LogWarn [LStr "Unable to transform empty registry"]
  else
    applications ← lift (get registry "applications");
    application ← lift (get applications "application");
    if negb (truthy application) then ret tt
    else
      newCache ← alloc_cache;
      match application with
      | VArr apps => forEach (λ a, transformApp a newCache) apps
      | _ => transformApp application newCache
      end;;
      assign_cache newCache.

Definition fetchRegistry (callback : option js_error → M unit) : M unit :=
  emit (Invoke OpFetchRegistry);;
  buildEurekaUrl (λ eurekaUrl,
    send {| req_method := GET; req_url := eurekaUrl; req_body := None |} (λ reply,
      match rp_error reply, rp_response reply with
      | None, None => throw (TypeError "Cannot read property 'statusCode' of undefined")
      | None, Some response =>
          if (statusCode response =? 200)%Z
          then
            log LogDebug [LStr "retrieved registry successfully"];;
            registry ← lift (JSON_parse env (ToString (rp_body reply)));
            transformRegistry registry;;
            callback None
          else
            callback (Some (Error "Unable to retrieve registry from Eureka server"))
      | Some error, _ => callback (Some error)
      end)).

End Client.


(** ** Validation of the configuration

    [validateConfig] reads the merged configuration object, before it is
    used as the [Config] above. *)

Definition and_then {A B} (c : completion A) (f : A → completion B) : completion B :=
  match c with
  | Normal a => f a
  | Throw e => Throw e
  end.

(** [`Missing "${namespace}.${key}" config value.`] *)
Definition missing_config (namespace key : string) : js_error :=
  let quote := String "034"%char EmptyString in
  TypeError ("Missing " +:+ quote +:+ namespace +:+ "." +:+ key +:+ quote +:+
             " config value.").

(** The inner function [validate(namespace, key)]. *)
Definition validate (config : value) (namespace key : string) : completion unit :=
  and_then (get config namespace) (λ section,
  and_then (get section key) (λ v,
  if negb (truthy v) then Throw (missing_config namespace key) else Normal tt)).

Definition validateConfig (config : value) : completion unit :=
  and_then (validate config "instance" "app") (λ _,
  and_then (validate config "instance" "vipAddress") (λ _,
  and_then (validate config "instance" "port") (λ _,
  and_then (validate config "instance" "dataCenterInfo") (λ _,
  and_then (validate config "eureka" "host") (λ _,
  validate config "eureka" "port"))))).

(** * Vocabulary of the statements *)

(** The sequence stored for an entry: the [instance] field itself when its
    [length] is truthy, a one-element array around it otherwise. *)
Definition normalized (instance : value) : value :=
  match get instance "length" with
  | Normal len => if truthy len then instance else VArr [instance]
  | Throw _ => VArr [instance]
  end.

(** [this.cache] refers to an allocated cache object. The constructor
    establishes it and every method keeps it. *)
Definition wf (s : Eureka) : Prop := cache s < length (heap s).

(** Events that stay inside the client. *)
Definition quiet_event (e : event) : Prop :=
  match e with
  | Log _ _ | Mutate _ => True
  | _ => False
  end.

Definition log_event (e : event) : Prop :=
  match e with
  | Log _ _ => True
  | _ => False
  end.

(** Events of a host resolution. *)
Definition resolution_event (e : event) : Prop :=
  match e with
  | DnsTxt _ | Log _ _ => True
  | _ => False
  end.

Definition dns_event (e : event) : Prop :=
  match e with
  | DnsTxt _ => True
  | _ => False
  end.

(** [σ] differs from [s] at most in the cache object at [l]. *)
Definition agree_off (l : loc) (s σ : Eureka) : Prop :=
  config σ = config s ∧ cache σ = cache s ∧ length (heap σ) = length (heap s) ∧
  ∀ l', l' ≠ l → heap σ !! l' = heap s !! l'.

(** [m] writes to the cache object at [l] only, in every state it passes
    through, and talks to nobody. *)
Definition framed {A} (l : loc) (m : M A) : Prop :=
  ∀ s, agree_off l s (st (m s)) ∧
       Forall (agree_off l s) (snapshots (tr (m s))) ∧
       Forall quiet_event (tr (m s)).

(** The cache object at [l1] in [s1] equals the one at [l2] in [s2]. *)
Definition same_cell (l1 : loc) (s1 : Eureka) (l2 : loc) (s2 : Eureka) : Prop :=
  ∃ c, heap s1 !! l1 = Some c ∧ heap s2 !! l2 = Some c.

(** The client right after [const newCache = { app: {}, vip: {} }]. *)
Definition with_new_cache (s : Eureka) : Eureka :=
  {| config := config s; heap := heap s ++ [empty_cache]; cache := cache s |}.

(** The conditional of [transformRegistry] that fills [newCache]. *)
Definition index_into (env : Env) (application : value) (newCache : loc) : M unit :=
  match application with
  | VArr apps => forEach (λ a, transformApp env a newCache) apps
  | _ => transformApp env application newCache
  end.

(** The events [t] followed by the run [r]. *)
Definition prepend {A} (t : list event) (r : Res A) : Res A :=
  MkRes (st r) (t ++ tr r) (out r).

(** Every query of the trace got an answer from the resolver. *)
Definition all_answered (env : Env) (t : list event) : Prop :=
  ∀ name, name ∈ dns_queries t → ∃ addresses, dns_resolveTxt env name = DnsOk addresses.

(** The condition of [lookupCurrentEurekaHost]. *)
Definition dns_mode (env : Env) (c : Config) : bool :=
  amazonDataCenter env c && eureka_useDns (cfg_eureka c).

(** The URL that [buildEurekaUrl] hands to its callback for a host. *)
Definition base_url (c : Config) (eurekaHost : value) : string :=
  (if eureka_ssl (cfg_eureka c) then "https" else "http") +:+ "://" +:+
  ToString eurekaHost +:+ ":" +:+ pretty (eureka_port (cfg_eureka c)) +:+
  eureka_servicePath (cfg_eureka c).

(** The errors that [register] and [fetchRegistry] construct. *)
Definition registration_failed (response : Response) (reply : Reply) : js_error :=
  Error ("eureka registration FAILED: status: " +:+ pretty (statusCode response) +:+
         " body: " +:+ ToString (rp_body reply)).

Definition fetch_failed : js_error :=
  Error "Unable to retrieve registry from Eureka server".

(** The fields that [validateConfig] checks, in its order. *)
Definition required_fields : list (string * string) :=
  [("instance", "app"); ("instance", "vipAddress"); ("instance", "port");
   ("instance", "dataCenterInfo"); ("eureka", "host"); ("eureka", "port")].

(** [config[namespace][key]] is there and truthy. *)
Definition provided (config : value) (field : string * string) : bool :=
  match get config (fst field) with
  | Normal section =>
      match get section (snd field) with
      | Normal v => truthy v
      | Throw _ => false
      end
  | Throw _ => false
  end.

(** The key of the application index that an entry is stored under. *)
Definition app_key (env : Env) (application : value) : completion string :=
  and_then (get application "name") (call_toUpperCase env).

(** The key of the virtual-IP index that an entry is stored under. *)
Definition vip_key (application : value) : completion string :=
  and_then (get application "instance") (λ instance,
  and_then (get_index (normalized instance) 0) (λ first,
  and_then (get first "vipAddress") (λ vipAddress, Normal (ToString vipAddress)))).

(** The sequence that an entry is stored as. *)
Definition stored (application : value) : completion value :=
  and_then (get application "instance") (λ instance, Normal (normalized instance)).

(** The URL of the instance's own resource on a statically configured
    server. *)
Definition static_base (c : Config) : string :=
  base_url c (VStr (eureka_host (cfg_eureka c))).

(** * Scenarios *)

Module Examples.

Definition own_datacenter : DataCenterInfo :=
  {| dc_name := Some "MyOwn"; dc_metadata := ∅ |}.

Definition amazon_datacenter : DataCenterInfo :=
  {| dc_name := Some "Amazon"; dc_metadata := {[ "instance-id" := VStr "i-0abc" ]} |}.

Definition orders_instance (dc : DataCenterInfo) : InstanceConfig :=
  {| inst_app := "orders"; inst_vipAddress := "orders.vip"; inst_port := 8080;
     inst_dataCenterInfo := dc; inst_instanceId := None;
     inst_hostName := Some "node1"; inst_status := None |}.

(** A client with a statically configured server. *)
Definition cfg : Config :=
  {| cfg_instance := orders_instance own_datacenter;
     cfg_eureka :=
       {| eureka_host := "eureka.local"; eureka_port := 8761;
          eureka_servicePath := "/eureka/v2/apps/"; eureka_ssl := false;
          eureka_useDns := false; eureka_ec2Region := None |} |}.

(** A client in a cloud datacenter that finds its server through DNS. *)
Definition cfg_dns : Config :=
  {| cfg_instance := orders_instance amazon_datacenter;
     cfg_eureka :=
       {| eureka_host := "eureka.example.com"; eureka_port := 8761;
          eureka_servicePath := "/eureka/v2/apps/"; eureka_ssl := true;
          eureka_useDns := true; eureka_ec2Region := Some "us-east-1" |} |}.

Definition s0 : Eureka := new_Eureka cfg.
Definition s_dns : Eureka := new_Eureka cfg_dns.

Definition obj (fields : list (string * value)) : value := VObj (list_to_map fields).

Definition orders_1 : value :=
  obj [("vipAddress", VStr "orders.vip"); ("instanceId", VStr "i-1")].
Definition orders_2 : value :=
  obj [("vipAddress", VStr "orders.vip"); ("instanceId", VStr "i-2")].

(** The payload of the end-to-end scenario of the registry cache. *)
Definition orders_registry : value :=
  obj [("applications", obj [("application",
    obj [("name", VStr "ORDERS"); ("instance", VArr [orders_1; orders_2])])])].

(** An application whose two instances declare different addresses. *)
Definition mixed_application : value :=
  obj [("name", VStr "Billing");
       ("instance", VArr [obj [("vipAddress", VStr "billing.a")];
                          obj [("vipAddress", VStr "billing.b")]])].

(** An application whose first instance declares the address [__proto__] and
    whose second instance declares the address [length]. *)
Definition proto_instances : value :=
  VArr [obj [("vipAddress", VStr "__proto__"); ("instanceId", VStr "i-1")];
        obj [("vipAddress", VStr "length"); ("instanceId", VStr "i-2")]].

Definition proto_registry : value :=
  obj [("applications", obj [("application",
    obj [("name", VStr "Billing"); ("instance", proto_instances)])])].

(** A record that has a [length] property of its own. *)
Definition sized_record : gmap string value :=
  list_to_map [("length", VNum 1); ("vipAddress", VStr "v")].

Definition plain_record : gmap string value :=
  list_to_map [("vipAddress", VStr "v"); ("instanceId", VStr "i-9")].

Definition answer (status : Z) (body : value) : Reply :=
  {| rp_error := None; rp_response := Some {| statusCode := status |}; rp_body := body |}.

Definition refused : Reply :=
  {| rp_error := Some (Error "connect ECONNREFUSED");
     rp_response := None; rp_body := VUndefined |}.

(** The members of [Object.prototype] and of [Array.prototype] in an
    ECMAScript 5 engine, [__proto__] apart. *)
Definition object_members : list string :=
  ["constructor"; "hasOwnProperty"; "isPrototypeOf"; "propertyIsEnumerable";
   "toLocaleString"; "toString"; "valueOf"; "__defineGetter__"; "__defineSetter__";
   "__lookupGetter__"; "__lookupSetter__"].

Definition array_members : list string :=
  ["constructor"; "concat"; "every"; "filter"; "forEach"; "indexOf"; "join";
   "lastIndexOf"; "map"; "pop"; "push"; "reduce"; "reduceRight"; "reverse"; "shift";
   "slice"; "some"; "sort"; "splice"; "toLocaleString"; "toString"; "unshift"].

(** A runtime whose [JSON.parse] knows the texts of a table and rejects every
    other text, whose resolver knows the names of a table, and whose strings
    are ASCII. The two facts about upper-cased strings hold of it: an
    upper-cased string has no lower-case letter, and every member name has
    one. *)
Definition runtime (server : Request → Reply) (texts : list (string * value))
    (records : list (string * list (list string))) (random : Q) : Env.
Proof.
  refine
    {| request := server;
       dns_resolveTxt := λ name,
         match (list_to_map records : gmap string (list (list string))) !! name with
         | Some addresses => DnsOk addresses
         | None => DnsErr (Error "queryTxt ENOTFOUND")
         end;
       Math_random := random;
       JSON_parse := λ text,
         match (list_to_map texts : gmap string value) !! text with
         | Some v => Normal v
         | None => Throw (SyntaxError "Unexpected token")
         end;
       toUpperCase := ascii_toUpperCase;
       toLowerCase := ascii_toLowerCase;
       Object_prototype := list_to_set object_members;
       Array_prototype := list_to_set array_members;
       toUpperCase_empty := _;
       toUpperCase_own := _ |}.
  - intros s. destruct s; cbn; split; congruence.
  - intros s.
    assert (Hup : has_lower (ascii_toUpperCase s) = false).
    { induction s as [|c s IH]; [reflexivity|].
      cbn [ascii_toUpperCase has_lower]. rewrite IH, orb_false_r.
      destruct c as [[] [] [] [] [] [] [] []]; reflexivity. }
    assert (Hnames : Forall (λ name, has_lower name = true) object_members)
      by (repeat constructor).
    split.
    + intros Heq. rewrite Heq in Hup. discriminate.
    + intros Hin. apply elem_of_list_to_set in Hin.
      rewrite Forall_forall in Hnames. specialize (Hnames _ Hin). congruence.
Defined.

(** The server accepts the registration, knows the instance and serves the
    registry. *)
Definition env_up : Env :=
  runtime (λ q, match req_method q with
                | POST => answer 204 VUndefined
                | GET => answer 200 (VStr "orders-registry.json")
                | PUT | DELETE => answer 200 (VStr "")
                end)
    [("orders-registry.json", orders_registry)] [] 0%Q.

(** The server has forgotten the instance. *)
Definition env_gone : Env :=
  runtime (λ q, match req_method q with
                | POST => answer 204 VUndefined
                | _ => answer 404 (VStr "")
                end) [] [] 0%Q.

(** The server answers every request with status 500. *)
Definition env_busy : Env :=
  runtime (λ _, answer 500 (VStr "busy")) [] [] 0%Q.

(** No connection. *)
Definition env_down : Env := runtime (λ _, refused) [] [] 0%Q.

(** The server answers the registry request with the text [null]. *)
Definition env_empty : Env :=
  runtime (λ _, answer 200 (VStr "null")) [("null", VNull)] [] 0%Q.

(** Two TXT records lead to the server. *)
Definition env_dns : Env :=
  runtime (λ _, answer 204 VUndefined) []
    [("txt.us-east-1.eureka.example.com",
        [["us-east-1a.eureka.example.com"; "us-east-1b.eureka.example.com"]]);
     ("txt.us-east-1b.eureka.example.com", [["ec2-1-2-3-4.compute.example.com"]])]
    (1 # 2)%Q.

(** The second TXT record is missing. *)
Definition env_dns_broken : Env :=
  runtime (λ _, answer 204 VUndefined) []
    [("txt.us-east-1.eureka.example.com",
        [["us-east-1a.eureka.example.com"; "us-east-1b.eureka.example.com"]])]
    (1 # 2)%Q.

Definition put_request : Request :=
  {| req_method := PUT;
     req_url := "http://eureka.local:8761/eureka/v2/apps/orders/node1";
     req_body := None |}.

Definition get_request : Request :=
  {| req_method := GET;
     req_url := "http://eureka.local:8761/eureka/v2/apps/";
     req_body := None |}.

Definition post_request : Request :=
  {| req_method := POST;
     req_url := "http://eureka.local:8761/eureka/v2/apps/orders";
     req_body := Some (cfg_instance (config (set_status "UP" s0))) |}.

End Examples.

(** * Properties *)

Arguments amazonDataCenter env c : simpl never.
Arguments element_text xs i : simpl never.
Arguments random_index env n : simpl never.
Arguments buildEurekaUrl env callback s : simpl never.
Arguments transformRegistry env registry s : simpl never.
Arguments register env callback s : simpl never.

(** ** Tactics for running a computation *)

Ltac munfold :=
  unfold mbind, M_bind, bind, mret, M_ret, ret, throw, lift, gets, emit, modify,
    log, store, report in *.

Ltac mrun := munfold; cbn.

(** ** Strings *)

Lemma eqb_empty_upper (env : Env) (a b : string) :
  toUpperCase env a = toUpperCase env b → String.eqb a "" = String.eqb b "".
Proof.
  intros H.
  destruct (String.eqb_spec a "") as [->|Ha], (String.eqb_spec b "") as [->|Hb]; try done.
  - symmetry in H. rewrite (proj2 (toUpperCase_empty env "") eq_refl) in H.
    by apply toUpperCase_empty in H.
  - rewrite (proj2 (toUpperCase_empty env "") eq_refl) in H.
    by apply toUpperCase_empty in H.
Qed.

(** ** Reading and writing an index *)

Lemma assign_own (o : Index) (k : string) (v : value) :
  k ≠ "__proto__" → assign o k v = {| own := <[k := v]> (own o); proto := proto o |}.
Proof. intros Hk. unfold assign. by destruct (String.eqb_spec k "__proto__"). Qed.

Lemma assign_upper (env : Env) (o : Index) (name : string) (v : value) :
  assign o (toUpperCase env name) v =
    {| own := <[toUpperCase env name := v]> (own o); proto := proto o |}.
Proof. apply assign_own, toUpperCase_own. Qed.

Lemma read_own (env : Env) (o : Index) (k : string) (v : value) :
  own o !! k = Some v → read env o k = Data v.
Proof. intros H. unfold read. by rewrite H. Qed.

Lemma read_absent (env : Env) (o : Index) (k : string) :
  own o !! k = None → proto o = ObjectPrototype →
  k ≠ "__proto__" → k ∉ Object_prototype env →
  read env o k = Data VUndefined.
Proof.
  intros Hown Hproto Hk Hmember. unfold read, inherited. rewrite Hown, Hproto.
  destruct (String.eqb_spec k "__proto__"); [done|]. cbn.
  by rewrite bool_decide_eq_false_2.
Qed.

(** ** What [transformApp] writes *)

Lemma get_not_nullish (v : value) (k : string) :
  nullish v = false → ∃ w, get v k = Normal w.
Proof. destruct v; cbn; intros; try discriminate; eauto. Qed.

Lemma get_normal_inv (v : value) (k : string) (w : value) :
  get v k = Normal w → nullish v = false.
Proof. destruct v; cbn; intros; try discriminate; eauto. Qed.

Lemma call_toUpperCase_inv (env : Env) (v : value) (key : string) :
  call_toUpperCase env v = Normal key →
  ∃ name, v = VStr name ∧ key = toUpperCase env name.
Proof. destruct v; cbn; intros H; try discriminate. injection H as <-. eauto. Qed.

Lemma alter_cell (f : Cache → Cache) (l : loc) (h : list Cache) (c : Cache) :
  h !! l = Some c → alter f l h !! l = Some (f c).
Proof. intros H. by rewrite list_lookup_alter_eq, H. Qed.

Lemma transformApp_cell (env : Env) (application : value) (cache_ref : loc)
    (s : Eureka) (c : Cache) :
  heap s !! cache_ref = Some c →
  out (transformApp env application cache_ref s) = Normal tt →
  ∃ name instance first vipAddress,
    get application "name" = Normal (VStr name) ∧
    get application "instance" = Normal instance ∧
    get_index (normalized instance) 0 = Normal first ∧
    get first "vipAddress" = Normal vipAddress ∧
    heap (st (transformApp env application cache_ref s)) !! cache_ref =
      Some {| app := assign (app c) (toUpperCase env name) (normalized instance);
              vip := assign (vip c) (ToString vipAddress) (normalized instance) |}.
Proof.
  intros Hc. unfold transformApp.
  destruct (get application "instance") as [instance|e] eqn:Hi; mrun; [|discriminate].
  destruct (get instance "length") as [len|e] eqn:Hl; mrun; [|discriminate].
  destruct (truthy len) eqn:Ht; mrun.
  - destruct (get application "name") as [nm|e] eqn:Hn; mrun; [|discriminate].
    destruct (call_toUpperCase env nm) as [key|e] eqn:Hk; mrun; [|discriminate].
    destruct (get_index instance 0) as [first|e] eqn:Hf; mrun; [|discriminate].
    destruct (get first "vipAddress") as [v|e] eqn:Hv; mrun; [|discriminate].
    intros _. apply call_toUpperCase_inv in Hk as (name & -> & ->).
    exists name, instance, first, v. unfold normalized. rewrite Hl, Ht.
    repeat split; try done.
    erewrite alter_cell; [|by apply alter_cell]. done.
  - destruct (get instance "vipAddress") as [v|e] eqn:Hv; mrun; [|discriminate].
    destruct (get application "name") as [nm|e] eqn:Hn; mrun; [|discriminate].
    destruct (call_toUpperCase env nm) as [key|e] eqn:Hk; mrun; [|discriminate].
    intros _. apply call_toUpperCase_inv in Hk as (name & -> & ->).
    exists name, instance, instance, v. unfold normalized. rewrite Hl, Ht.
    repeat split; try done.
    erewrite alter_cell; [|by apply alter_cell]. done.
Qed.

Lemma transformApp_total (env : Env) (application : value) (cache_ref : loc) (s : Eureka)
    (name : string) (instance first : value) :
  get application "name" = Normal (VStr name) →
  get application "instance" = Normal instance →
  nullish instance = false →
  get_index (normalized instance) 0 = Normal first →
  nullish first = false →
  out (transformApp env application cache_ref s) = Normal tt.
Proof.
  intros Hn Hi Hni Hf Hnf. unfold transformApp, normalized in *.
  rewrite Hi. mrun.
  destruct (get_not_nullish instance "length" Hni) as [len Hl]. rewrite Hl in *. mrun.
  destruct (truthy len); mrun.
  - rewrite Hn. mrun. rewrite Hf. mrun.
    destruct (get_not_nullish first "vipAddress" Hnf) as [v ->]. done.
  - destruct (get_not_nullish instance "vipAddress" Hni) as [v ->]. mrun.
    rewrite Hn. done.
Qed.

(** ** Lookups *)

Lemma getInstancesByAppId_string (env : Env) (s : Eureka) (id : string) :
  id ≠ "" →
  let instances := read env (app (this_cache s)) (toUpperCase env id) in
  getInstancesByAppId env (VStr id) s =
    MkRes s
      (if truthy_member instances then []
       else [Log LogWarn [LStr ("Unable to retrieve instances for appId: " +:+ id)]])
      (Normal instances).
Proof.
  intros Hid. unfold getInstancesByAppId. cbn.
  destruct (String.eqb_spec id ""); [done|]. mrun.
  by destruct (truthy_member _).
Qed.

Lemma getInstancesByVipAddress_string (env : Env) (s : Eureka) (id : string) :
  id ≠ "" →
  let instances := read env (vip (this_cache s)) id in
  getInstancesByVipAddress env (VStr id) s =
    MkRes s
      (if truthy_member instances then []
       else [Log LogWarn [LStr ("Unable to retrieves instances for vipAddress: " +:+ id)]])
      (Normal instances).
Proof.
  intros Hid. unfold getInstancesByVipAddress. cbn.
  destruct (String.eqb_spec id ""); [done|]. mrun.
  by destruct (truthy_member _).
Qed.

(** C6. Looking up an application id is case-insensitive: two identifiers
    that the runtime's [toUpperCase] maps to the same string get the same
    answer in every state of the client, and the entry that [transformApp]
    writes for an application is an own property of the application index
    under that string, which the lookup of every casing of its name reads. *)
Theorem app_lookup_case_insensitive (env : Env) (a b : string) :
  toUpperCase env a = toUpperCase env b →
  (∀ s, out (getInstancesByAppId env (VStr a) s) = out (getInstancesByAppId env (VStr b) s) ∧
        st (getInstancesByAppId env (VStr a) s) = st (getInstancesByAppId env (VStr b) s)) ∧
  (∀ application cache_ref s c,
     heap s !! cache_ref = Some c →
     get application "name" = Normal (VStr b) →
     out (transformApp env application cache_ref s) = Normal tt →
     ∃ c' instance,
       get application "instance" = Normal instance ∧
       heap (st (transformApp env application cache_ref s)) !! cache_ref = Some c' ∧
       own (app c') !! toUpperCase env a = Some (normalized instance) ∧
       read env (app c') (toUpperCase env a) = Data (normalized instance) ∧
       read env (app c') (toUpperCase env b) = Data (normalized instance)).
Proof.
  intros Hab. split.
  - intros s. unfold getInstancesByAppId. cbn.
    rewrite (eqb_empty_upper env a b Hab). destruct (String.eqb b ""); [done|].
    mrun. rewrite Hab. by destruct (truthy_member _).
  - intros application cache_ref s c Hc Hn Ho.
    destruct (transformApp_cell _ _ _ _ _ Hc Ho)
      as (name & instance & first & v & Hn' & Hi & _ & _ & Hcell).
    rewrite Hn in Hn'. injection Hn' as <-.
    eexists _, instance. split_and!; [done|exact Hcell|..]; cbn [app];
      rewrite assign_upper, ?Hab.
    + apply lookup_insert_eq.
    + apply read_own, lookup_insert_eq.
    + apply read_own, lookup_insert_eq.
Qed.

(** ** Normalization of an application entry *)

(** C10. An entry whose [instance] is the empty list is indexed by the
    single-record branch: the first write puts the key ["undefined"], the
    string form of the missing [vipAddress] of the empty list, into the
    virtual-IP index; with a string name the second write puts the upper-cased
    name into the application index; both keys hold the one-element sequence
    whose element is the empty list. *)
Theorem empty_instance_list_is_wrapped
    (env : Env) (application : value) (cache_ref : loc) (s : Eureka) (c : Cache) :
  get application "instance" = Normal (VArr []) →
  heap s !! cache_ref = Some c →
  let wrapped := VArr [VArr []] in
  let s1 := {| config := config s;
               heap := alter (put_vip "undefined" wrapped) cache_ref (heap s);
               cache := cache s |} in
  normalized (VArr []) = wrapped ∧
  get (VArr []) "vipAddress" = Normal VUndefined ∧
  ToString VUndefined = "undefined" ∧
  (∃ rest, tr (transformApp env application cache_ref s) = Mutate s1 :: rest) ∧
  ∀ name,
    get application "name" = Normal (VStr name) →
    let s2 := {| config := config s;
                 heap := alter (put_app (toUpperCase env name) wrapped) cache_ref (heap s1);
                 cache := cache s |} in
    transformApp env application cache_ref s = MkRes s2 [Mutate s1; Mutate s2] (Normal tt) ∧
    heap s2 !! cache_ref =
      Some {| app := {| own := <[toUpperCase env name := wrapped]> (own (app c));
                        proto := proto (app c) |};
              vip := {| own := <["undefined" := wrapped]> (own (vip c));
                        proto := proto (vip c) |} |}.
Proof.
  intros Hi Hc. unfold transformApp. rewrite Hi. mrun.
  split_and!; [done..| |].
  - destruct (get application "name") as [nm|e]; mrun; [|eauto].
    destruct (call_toUpperCase env nm) as [key|e]; mrun; eauto.
  - intros name Hn. rewrite Hn. mrun. split; [done|].
    erewrite alter_cell; [|by apply alter_cell].
    unfold put_app, put_vip. cbn [app vip]. by rewrite assign_upper.
Qed.

(** ** Writes through a cache reference leave every other cache object alone *)

Lemma bind_run {A B} (m : M A) (f : A → M B) (s : Eureka) :
  (m ≫= f) s =
    match out (m s) with
    | Normal a =>
        MkRes (st (f a (st (m s)))) (tr (m s) ++ tr (f a (st (m s))))
          (out (f a (st (m s))))
    | Throw e => MkRes (st (m s)) (tr (m s)) (Throw e)
    end.
Proof. reflexivity. Qed.

Lemma snapshots_app (t1 t2 : list event) :
  snapshots (t1 ++ t2) = snapshots t1 ++ snapshots t2.
Proof. apply omap_app. Qed.

Lemma reported_app (t1 t2 : list event) :
  reported (t1 ++ t2) = reported t1 ++ reported t2.
Proof. apply omap_app. Qed.

Lemma requests_app (t1 t2 : list event) :
  requests (t1 ++ t2) = requests t1 ++ requests t2.
Proof. apply omap_app. Qed.

Lemma dns_queries_app (t1 t2 : list event) :
  dns_queries (t1 ++ t2) = dns_queries t1 ++ dns_queries t2.
Proof. apply omap_app. Qed.

Lemma invocations_app (op : operation) (t1 t2 : list event) :
  invocations op (t1 ++ t2) = invocations op t1 + invocations op t2.
Proof.
  induction t1 as [|e t1 IH]; [done|].
  destruct e; cbn; rewrite IH; lia.
Qed.

Lemma quiet_silent (t : list event) :
  Forall quiet_event t →
  reported t = [] ∧ requests t = [] ∧ dns_queries t = [] ∧
  ∀ op, invocations op t = 0.
Proof.
  induction 1 as [|e t He _ IH]; [done|].
  destruct IH as (? & ? & ? & ?). by destruct e.
Qed.

Lemma agree_off_refl (l : loc) (s : Eureka) : agree_off l s s.
Proof. by repeat split. Qed.

Lemma agree_off_trans (l : loc) (s1 s2 s3 : Eureka) :
  agree_off l s1 s2 → agree_off l s2 s3 → agree_off l s1 s3.
Proof.
  intros (? & ? & ? & H12) (? & ? & ? & H23). repeat split; try congruence.
  intros l' Hl'. by rewrite H23, H12.
Qed.

Lemma agree_off_view (l : loc) (s σ : Eureka) :
  agree_off l s σ → cache s ≠ l → this_cache σ = this_cache s.
Proof.
  intros (_ & Hc & _ & Hh) Hne. unfold this_cache. rewrite Hc. by rewrite Hh.
Qed.

Lemma framed_ret {A} (l : loc) (a : A) : framed l (mret a : M A).
Proof. intros s. cbn. auto using agree_off_refl. Qed.

Lemma framed_throw {A} (l : loc) (e : js_error) : framed l (throw e : M A).
Proof. intros s. cbn. auto using agree_off_refl. Qed.

Lemma framed_lift {A} (l : loc) (c : completion A) : framed l (lift c).
Proof. destruct c; [apply (framed_ret l a)|apply framed_throw]. Qed.

Lemma framed_bind {A B} (l : loc) (m : M A) (f : A → M B) :
  framed l m → (∀ a, framed l (f a)) → framed l (m ≫= f).
Proof.
  intros Hm Hf s. rewrite bind_run.
  destruct (Hm s) as (Hst & Hsn & Hq).
  destruct (out (m s)) as [a|e]; cbn; [|done].
  destruct (Hf a (st (m s))) as (Hst' & Hsn' & Hq').
  split_and!.
  - by eapply agree_off_trans.
  - rewrite snapshots_app. apply Forall_app. split; [done|].
    eapply Forall_impl; [exact Hsn'|]. intros σ. by apply agree_off_trans.
  - by apply Forall_app.
Qed.

Lemma framed_store (l : loc) (f : Cache → Cache) : framed l (store l f).
Proof.
  intros s. cbn.
  assert (agree_off l s
    {| config := config s; heap := alter f l (heap s); cache := cache s |}).
  { repeat split; cbn; [by rewrite length_alter|].
    intros l' Hl'. by rewrite list_lookup_alter_ne. }
  split_and!; [done|by apply Forall_singleton..].
Qed.

Lemma framed_transformApp (env : Env) (application : value) (l : loc) :
  framed l (transformApp env application l).
Proof.
  unfold transformApp.
  repeat first
    [ apply framed_bind; [|intros ?]
    | apply framed_lift
    | apply framed_store
    | match goal with |- framed _ (if ?b then _ else _) => destruct b end ].
Qed.

Lemma framed_forEach {A} (l : loc) (f : A → M unit) (xs : list A) :
  (∀ x, framed l (f x)) → framed l (forEach f xs).
Proof.
  intros Hf. induction xs as [|x xs IH]; cbn.
  - apply (framed_ret l tt).
  - apply framed_bind; [apply Hf|intros _; apply IH].
Qed.

(** The entries an application writes do not depend on the client they are
    written into, only on the cache object they are added to. *)
Lemma transformApp_sim (env : Env) (application : value) (l1 l2 : loc) (s1 s2 : Eureka) :
  same_cell l1 s1 l2 s2 →
  out (transformApp env application l1 s1) = out (transformApp env application l2 s2) ∧
  same_cell l1 (st (transformApp env application l1 s1))
            l2 (st (transformApp env application l2 s2)).
Proof.
  intros (c & H1 & H2). unfold transformApp, same_cell.
  destruct (get application "instance") as [instance|e]; mrun; [|eauto].
  destruct (get instance "length") as [len|e]; mrun; [|eauto].
  destruct (truthy len); mrun.
  - destruct (get application "name") as [nm|e]; mrun; [|eauto].
    destruct (call_toUpperCase env nm) as [key|e]; mrun; [|eauto].
    destruct (get_index instance 0) as [first|e]; mrun;
      [|split; [done|]; eexists; split; by apply alter_cell].
    destruct (get first "vipAddress") as [v|e]; mrun;
      [|split; [done|]; eexists; split; by apply alter_cell].
    split; [done|]. eexists. split; by do 2 apply alter_cell.
  - destruct (get instance "vipAddress") as [v|e]; mrun; [|eauto].
    destruct (get application "name") as [nm|e]; mrun;
      [|split; [done|]; eexists; split; by apply alter_cell].
    destruct (call_toUpperCase env nm) as [key|e]; mrun;
      [|split; [done|]; eexists; split; by apply alter_cell].
    split; [done|]. eexists. split; by do 2 apply alter_cell.
Qed.

Lemma forEach_transformApp_sim (env : Env) (apps : list value) (l1 l2 : loc) (s1 s2 : Eureka) :
  same_cell l1 s1 l2 s2 →
  out (forEach (λ a, transformApp env a l1) apps s1) =
    out (forEach (λ a, transformApp env a l2) apps s2) ∧
  same_cell l1 (st (forEach (λ a, transformApp env a l1) apps s1))
            l2 (st (forEach (λ a, transformApp env a l2) apps s2)).
Proof.
  revert s1 s2. induction apps as [|a apps IH]; intros s1 s2 Hs; [done|].
  cbn [forEach]. rewrite !bind_run.
  destruct (transformApp_sim env a l1 l2 s1 s2 Hs) as [Ho Hc]. rewrite <- Ho.
  destruct (out (transformApp env a l1 s1)) as [[]|e]; cbn; [|done].
  by apply IH.
Qed.

(** ** [transformRegistry] *)

Lemma alloc_cache_run (s : Eureka) :
  alloc_cache s = MkRes (with_new_cache s) [Mutate (with_new_cache s)] (Normal (length (heap s))).
Proof. reflexivity. Qed.

Lemma with_new_cache_view (s : Eureka) :
  wf s → this_cache (with_new_cache s) = this_cache s.
Proof.
  intros Hwf. unfold this_cache, with_new_cache. cbn. by rewrite lookup_app_l.
Qed.

Lemma with_new_cache_cell (s : Eureka) :
  heap (with_new_cache s) !! length (heap s) = Some empty_cache.
Proof. cbn. by rewrite lookup_app_r, Nat.sub_diag. Qed.

Lemma framed_index_into (env : Env) (application : value) (l : loc) :
  framed l (index_into env application l).
Proof.
  destruct application; try apply framed_transformApp.
  apply framed_forEach. intros a. apply framed_transformApp.
Qed.

Lemma index_into_sim (env : Env) (application : value) (l1 l2 : loc) (s1 s2 : Eureka) :
  same_cell l1 s1 l2 s2 →
  out (index_into env application l1 s1) = out (index_into env application l2 s2) ∧
  same_cell l1 (st (index_into env application l1 s1))
            l2 (st (index_into env application l2 s2)).
Proof.
  destruct application; try apply transformApp_sim.
  apply forEach_transformApp_sim.
Qed.

(** Allocate, fill, publish: the last three statements of [transformRegistry]. *)
Lemma publish_run (env : Env) (application : value) (s : Eureka) :
  wf s →
  let r := (newCache ← alloc_cache;
            index_into env application newCache;;
            assign_cache newCache) s in
  config (st r) = config s ∧ wf (st r) ∧ Forall quiet_event (tr r) ∧
  Forall (λ σ, this_cache σ = this_cache s ∨ σ = st r) (snapshots (tr r)) ∧
  (out r ≠ Normal tt → this_cache (st r) = this_cache s) ∧
  (out r = Normal tt →
   out (index_into env application (length (heap s)) (with_new_cache s)) = Normal tt ∧
   heap (st r) !! cache (st r) =
     heap (st (index_into env application (length (heap s)) (with_new_cache s)))
       !! length (heap s)).
Proof.
  intros Hwf r. subst r.
  rewrite bind_run, alloc_cache_run. cbn [out st tr]. rewrite bind_run.
  set (l := length (heap s)). set (s1 := with_new_cache s).
  destruct (framed_index_into env application l s1) as ((Hcfg & Hcache & Hlen & Hoff) & Hsn & Hq).
  assert (Hne : cache s1 ≠ l) by (unfold wf in Hwf; cbn; lia).
  assert (Hold : Forall (λ σ, this_cache σ = this_cache s)
                   (snapshots (tr (index_into env application l s1)))).
  { eapply Forall_impl; [exact Hsn|]. intros σ Hσ.
    rewrite (agree_off_view l s1 σ Hσ Hne). by apply with_new_cache_view. }
  assert (Hview : this_cache (st (index_into env application l s1)) = this_cache s).
  { rewrite (agree_off_view l s1) by done. by apply with_new_cache_view. }
  destruct (out (index_into env application l s1)) as [[]|e] eqn:Hout; cbn -[snapshots].
  - split_and!; try done.
    + unfold wf. cbn. rewrite Hlen. subst l s1. cbn. rewrite length_app. cbn. lia.
    + constructor; [done|]. apply Forall_app. split; [done|]. by repeat constructor.
    + change (Mutate s1 :: ?t) with ([Mutate s1] ++ t).
      rewrite !snapshots_app. simpl (snapshots [_]).
      apply Forall_cons. split; [left; by apply with_new_cache_view|].
      apply Forall_app. split.
      * eapply Forall_impl; [exact Hold|]. intros; by left.
      * apply Forall_singleton. by right.
  - split_and!; try done.
    + unfold wf. rewrite Hlen, Hcache. subst l s1. cbn. rewrite length_app. unfold wf in Hwf. lia.
    + by constructor.
    + change (Mutate s1 :: ?t) with ([Mutate s1] ++ t).
      rewrite !snapshots_app. simpl (snapshots [_]).
      apply Forall_cons. split; [left; by apply with_new_cache_view|].
      eapply Forall_impl; [exact Hold|]. intros; by left.
Qed.

Lemma publish_independent (env : Env) (application : value) (s s' : Eureka) :
  wf s → wf s' →
  let r := (newCache ← alloc_cache;
            index_into env application newCache;;
            assign_cache newCache) s in
  let r' := (newCache ← alloc_cache;
             index_into env application newCache;;
             assign_cache newCache) s' in
  out r = out r' ∧ (out r = Normal tt → this_cache (st r) = this_cache (st r')).
Proof.
  intros Hwf Hwf' r r'.
  destruct (publish_run env application s Hwf) as (_ & _ & _ & _ & _ & Hok).
  destruct (publish_run env application s' Hwf') as (_ & _ & _ & _ & _ & Hok').
  fold r in Hok. fold r' in Hok'.
  destruct (index_into_sim env application (length (heap s)) (length (heap s'))
              (with_new_cache s) (with_new_cache s')) as [Ho (c & H1 & H2)].
  { exists empty_cache. split; apply with_new_cache_cell. }
  assert (Hout : out r = out r').
  { subst r r'. rewrite !bind_run, !alloc_cache_run. cbn [out st tr].
    rewrite !bind_run, <- Ho. by destruct (out (index_into _ _ _ _)) as [[]|]. }
  split; [done|]. intros Hn.
  destruct (Hok Hn) as [_ Hc]. rewrite Hout in Hn. destruct (Hok' Hn) as [_ Hc'].
  unfold this_cache. by rewrite Hc, Hc', H1, H2.
Qed.

Lemma transformRegistry_run (env : Env) (registry : value) (s : Eureka) :
  wf s →
  let r := transformRegistry env registry s in
  config (st r) = config s ∧ wf (st r) ∧ Forall quiet_event (tr r) ∧
  Forall (λ σ, this_cache σ = this_cache s ∨ σ = st r) (snapshots (tr r)) ∧
  (out r ≠ Normal tt → this_cache (st r) = this_cache s) ∧
  (truthy registry = false →
   r = MkRes s [Log LogWarn [LStr "Unable to transform empty registry"]] (Normal tt)).
Proof.
  intros Hwf. unfold transformRegistry.
  destruct (truthy registry); cbn [negb].
  2: { cbn. split_and!; try done. by repeat constructor. }
  destruct (get registry "applications") as [applications|e]; cbn [lift].
  2: { cbn. split_and!; done. }
  rewrite bind_run; cbn [out st tr ret mret M_ret].
  destruct (get applications "application") as [application|e]; cbn [lift].
  2: { cbn. split_and!; done. }
  rewrite bind_run; cbn [out st tr ret mret M_ret].
  destruct (truthy application); cbn [negb].
  2: { cbn. split_and!; done. }
  cbn [app]. fold (index_into env application).
  destruct (publish_run env application s Hwf) as (H1 & H2 & H3 & H4 & H5 & H6).
  split_and!; done.
Qed.

(** The index that a registry produces is the same whatever client receives
    it: nothing of an older cache enters the new one. *)
Lemma transformRegistry_independent (env : Env) (registry : value) (s s' : Eureka) :
  wf s → wf s' →
  let r := transformRegistry env registry s in
  let r' := transformRegistry env registry s' in
  out r = out r' ∧
  (this_cache (st r) = this_cache s ∨ this_cache (st r) = this_cache (st r')).
Proof.
  intros Hwf Hwf'. unfold transformRegistry.
  destruct (truthy registry); cbn [negb].
  2: { cbn. split; [done|by left]. }
  destruct (get registry "applications") as [applications|e]; cbn [lift].
  2: { cbn. split; [done|by left]. }
  rewrite !bind_run; cbn [out st tr ret mret M_ret].
  destruct (get applications "application") as [application|e]; cbn [lift].
  2: { cbn. split; [done|by left]. }
  rewrite !bind_run; cbn [out st tr ret mret M_ret].
  destruct (truthy application); cbn [negb].
  2: { cbn. split; [done|by left]. }
  fold (index_into env application).
  destruct (publish_independent env application s s' Hwf Hwf') as [Ho Hi].
  destruct (publish_run env application s Hwf) as (_ & _ & _ & _ & H5 & _).
  split; [done|].
  destruct (out ((newCache ← alloc_cache;
                  index_into env application newCache;;
                  assign_cache newCache) s)) as [[]|e] eqn:Hout.
  - right. by apply Hi.
  - left. by apply H5.
Qed.

(** ** Host resolution *)

Lemma resolution_silent (t : list event) :
  Forall resolution_event t →
  reported t = [] ∧ requests t = [] ∧ snapshots t = [] ∧
  ∀ op, invocations op t = 0.
Proof.
  induction 1 as [|e t He _ IH]; [done|].
  destruct IH as (? & ? & ? & ?). by destruct e.
Qed.

Lemma dns_event_resolution (t : list event) :
  Forall dns_event t → Forall resolution_event t.
Proof. intros H. eapply Forall_impl; [exact H|]. by intros []. Qed.

(** The three ways a resolution attempt can go: an [Error] is thrown because
    the region is missing or a query failed; the first answer is empty and
    reading it throws; or the callback gets a host. Which one it is depends
    on the configuration and the resolver only. *)
Lemma lookupCurrentEurekaHost_cases (env : Env) (c : Config) :
  (∃ t message, Forall dns_event t ∧ dns_mode env c = true ∧
     ∀ k s, config s = c →
       lookupCurrentEurekaHost env k s = MkRes s t (Throw (Error message))) ∨
  (∃ t e, Forall dns_event t ∧ all_answered env t ∧
     ∀ k s, config s = c → lookupCurrentEurekaHost env k s = MkRes s t (Throw e)) ∨
  (∃ t host, Forall resolution_event t ∧ all_answered env t ∧
     (dns_mode env c = false → t = [] ∧ host = VStr (eureka_host (cfg_eureka c))) ∧
     ∀ k s, config s = c → lookupCurrentEurekaHost env k s = prepend t (k host s)).
Proof.
  unfold lookupCurrentEurekaHost, locateEurekaHostUsingDns, resolveTxt, dns_mode.
  destruct (amazonDataCenter env c && eureka_useDns (cfg_eureka c)) eqn:Hdns.
  2: { right; right. exists [], (VStr (eureka_host (cfg_eureka c))).
       split_and!; [done| |done|].
       - intros name Hn. by apply elem_of_nil in Hn.
       - intros k s Hs. mrun. by rewrite ?Hs, Hdns. }
  destruct (is_set (eureka_ec2Region (cfg_eureka c))) eqn:Hregion.
  2: { left. eexists [], _. split_and!; [done..|]. intros k s Hs. mrun.
       rewrite ?Hs, Hdns. cbn. rewrite ?Hs, Hregion. reflexivity. }
  set (name1 := "txt." +:+ default "" (eureka_ec2Region (cfg_eureka c)) +:+
                "." +:+ eureka_host (cfg_eureka c)).
  destruct (dns_resolveTxt env name1) as [err|[|first rest]] eqn:H1.
  - left. eexists [DnsTxt name1], _. split_and!; [by repeat constructor|done|].
    intros k s Hs. mrun.
    rewrite ?Hs, Hdns. cbn. rewrite ?Hs, Hregion. cbn. fold name1. rewrite H1. reflexivity.
  - right; left. eexists [DnsTxt name1], _. split_and!; [by repeat constructor| |].
    + intros name Hn. apply list_elem_of_singleton in Hn as ->. eauto.
    + intros k s Hs. mrun.
      rewrite ?Hs, Hdns. cbn. rewrite ?Hs, Hregion. cbn. fold name1. rewrite H1. reflexivity.
  - set (name2 := "txt." +:+ element_text first (random_index env (length first))).
    destruct (dns_resolveTxt env name2) as [err|results] eqn:H2.
    + left. eexists [DnsTxt name1; DnsTxt name2], _.
      split_and!; [by repeat constructor|done|].
      intros k s Hs. mrun.
      rewrite ?Hs, Hdns. cbn. rewrite ?Hs, Hregion. cbn. fold name1. rewrite H1. cbn.
      rewrite ?Hs. fold name2. rewrite H2. reflexivity.
    + right; right.
      eexists [DnsTxt name1; DnsTxt name2;
               Log LogDebug [LStr "Found Eureka Server @ "; LTxt results]], _.
      split_and!; [by repeat constructor| |done|].
      * intros name Hn. apply elem_of_cons in Hn as [->|Hn]; [eauto|].
        apply list_elem_of_singleton in Hn as ->. eauto.
      * intros k s Hs. mrun.
        rewrite ?Hs, Hdns. cbn. rewrite ?Hs, Hregion. cbn. fold name1. rewrite H1. cbn.
        rewrite ?Hs. fold name2. rewrite H2. reflexivity.
Qed.

Lemma buildEurekaUrl_throw (env : Env) (s : Eureka) (t : list event) (e : js_error) :
  (∀ k, lookupCurrentEurekaHost env k s = MkRes s t (Throw e)) →
  ∀ k, buildEurekaUrl env k s = MkRes s t (Throw e).
Proof. intros Hk k. unfold buildEurekaUrl. by rewrite Hk. Qed.

Lemma buildEurekaUrl_cases (env : Env) (c : Config) :
  (∃ t e, Forall dns_event t ∧
     ∀ k s, config s = c → buildEurekaUrl env k s = MkRes s t (Throw e)) ∨
  (∃ t host, Forall resolution_event t ∧
     ∀ k s, config s = c →
       buildEurekaUrl env k s = prepend t (k (base_url c host) s)).
Proof.
  destruct (lookupCurrentEurekaHost_cases env c)
    as [(t & e & Ht & _ & Hk)|[(t & e & Ht & _ & Hk)|(t & host & Ht & _ & _ & Hk)]].
  - left. exists t, (Error e). split; [done|]. intros k s Hs.
    apply buildEurekaUrl_throw. intros k'. by apply Hk.
  - left. exists t, e. split; [done|]. intros k s Hs.
    apply buildEurekaUrl_throw. intros k'. by apply Hk.
  - right. exists t, host. split; [done|]. intros k s <-. unfold buildEurekaUrl.
    rewrite Hk by done. unfold prepend. mrun. reflexivity.
Qed.

(** C5. When a TXT query of a resolution attempt fails, the attempt was made
    in DNS mode and it ends in a thrown [Error] after the queries made so
    far: whatever callback was passed to [lookupCurrentEurekaHost] or to
    [buildEurekaUrl] is never invoked, so no host, in particular not the
    configured one, and no base URL come out of the attempt. *)
Theorem dns_failure_is_fatal (env : Env) (s : Eureka) (name : string) (err : js_error) :
  let r := lookupCurrentEurekaHost env (λ host, emit (Resolved host)) s in
  name ∈ dns_queries (tr r) →
  dns_resolveTxt env name = DnsErr err →
  dns_mode env (config s) = true ∧
  ∃ message,
    Forall dns_event (tr r) ∧
    (∀ k, lookupCurrentEurekaHost env k s = MkRes s (tr r) (Throw (Error message))) ∧
    (∀ k, buildEurekaUrl env k s = MkRes s (tr r) (Throw (Error message))).
Proof.
  intros r Hq Herr. subst r.
  destruct (lookupCurrentEurekaHost_cases env (config s))
    as [(t & e & Ht & Hm & Hk)|[(t & e & Ht & Ha & Hk)|(t & host & Ht & Ha & _ & Hk)]];
    rewrite (Hk _ s eq_refl) in *; cbn [tr prepend] in *.
  - split; [done|]. exists e. split_and!; [done| |].
    + intros k. by apply Hk.
    + apply buildEurekaUrl_throw. intros k. by apply Hk.
  - destruct (Ha name Hq) as [a Hok]. congruence.
  - rewrite dns_queries_app in Hq. cbn in Hq. rewrite app_nil_r in Hq.
    destruct (Ha name Hq) as [a Hok]. congruence.
Qed.

Ltac silence Ht :=
  let Hr := fresh "Hr" in
  let Hq := fresh "Hq" in
  let Hs := fresh "Hs" in
  let Hi := fresh "Hi" in
  destruct (resolution_silent _ Ht) as (Hr & Hq & Hs & Hi);
  unfold reported, requests, snapshots in Hr, Hq, Hs;
  cbn; unfold prepend; cbn;
  rewrite ?omap_app, ?invocations_app, ?Hr, ?Hq, ?Hs, ?Hi; cbn.

(** C4. [register] invokes the caller's callback with [null] exactly when
    the create-registration request was answered without a transport error
    and with status 204. An answer with another status gives the callback an
    [Error] whose message holds the status code and the body; a transport
    error is passed to the callback as it is. *)
Theorem register_reports (env : Env) (s : Eureka) :
  let r := register env report s in
  (reported (tr r) = [None] ↔
     ∃ q response,
       head (requests (tr r)) = Some q ∧
       rp_error (request env q) = None ∧
       rp_response (request env q) = Some response ∧
       statusCode response = 204%Z) ∧
  (∀ q, head (requests (tr r)) = Some q →
     req_method q = POST ∧
     (∀ response,
        rp_error (request env q) = None →
        rp_response (request env q) = Some response →
        statusCode response ≠ 204%Z →
        reported (tr r) = [Some (registration_failed response (request env q))]) ∧
     (∀ e, rp_error (request env q) = Some e → reported (tr r) = [Some e])).
Proof.
  unfold register. mrun.
  destruct (buildEurekaUrl_cases env (config (set_status "UP" s)))
    as [(t & e & Ht & Hk)|(t & host & Ht & Hk)]; rewrite Hk by done; clear Hk.
  - apply dns_event_resolution in Ht. silence Ht.
    split; [|done]. split; [done|]. by intros (q & response & ? & _).
  - unfold send. mrun.
    set (q := {| req_method := POST; req_url := _; req_body := _ |}).
    destruct (request env q) as [[error|] [response|] body] eqn:Hreply; silence Ht.
    + split.
      * split; [done|]. intros (q0 & r0 & [= <-] & He & _). by rewrite Hreply in He.
      * intros q0 [= <-]. rewrite Hreply. cbn. split_and!; [done|done|]. by intros e [= <-].
    + split.
      * split; [done|]. intros (q0 & r0 & [= <-] & He & _). by rewrite Hreply in He.
      * intros q0 [= <-]. rewrite Hreply. cbn. split_and!; [done|done|]. by intros e [= <-].
    + destruct (Z.eqb_spec (statusCode response) 204) as [H204|H204]; cbn.
      * split.
        -- split; [|done]. intros _. exists q, response. by rewrite Hreply.
        -- intros q0 [= <-]. rewrite Hreply. cbn. split_and!; [done| |done].
           by intros r0 _ [= <-] ?.
      * split.
        -- split; [done|]. intros (q0 & r0 & [= <-] & _ & Hr0 & Hst).
           rewrite Hreply in Hr0. cbn in Hr0. by injection Hr0 as <-.
        -- intros q0 [= <-]. rewrite Hreply. cbn. split_and!; [done| |done].
           by intros r0 _ [= <-] _.
    + split.
      * split; [done|]. intros (q0 & r0 & [= <-] & _ & Hr0 & _). by rewrite Hreply in Hr0.
      * intros q0 [= <-]. rewrite Hreply. cbn. split_and!; done.
Qed.

Lemma register_invoked_once (env : Env) (s : Eureka) :
  invocations OpRegister (tr (register env noop s)) = 1.
Proof.
  unfold register. mrun.
  destruct (buildEurekaUrl_cases env (config (set_status "UP" s)))
    as [(t & e & Ht & Hk)|(t & host & Ht & Hk)]; rewrite Hk by done; clear Hk.
  - apply dns_event_resolution in Ht. by silence Ht.
  - unfold send. mrun.
    destruct (request env _) as [[error|] [response|] body]; silence Ht; try done.
    by destruct (statusCode response =? 204)%Z.
Qed.

(** C3. What the renew callback does with the server's answer. On 404 (and
    no transport error) it logs one warning and calls [register] once, and
    that is the only call of [register] in the whole heartbeat. On a transport
    error, or a status other than 200 and 404, it only writes log lines: no
    exception, no call of [register], no further request, no change of the
    client. *)
Theorem heartbeat_response (env : Env) (s : Eureka) (q : Request) :
  let r := renew env s in
  let reply := request env q in
  head (requests (tr r)) = Some q →
  req_method q = PUT ∧
  (∀ response,
     rp_error reply = None → rp_response reply = Some response →
     statusCode response = 404%Z →
     invocations OpRegister (tr r) = 1 ∧
     ∃ t, Forall resolution_event t ∧
       tr r = Invoke OpRenew :: t ++
              [Http q; Log LogWarn [LStr "eureka heartbeat FAILED, Re-registering app"]] ++
              tr (register env noop s)) ∧
  (is_Some (rp_error reply) ∨
   (∃ response, rp_response reply = Some response ∧
      statusCode response ≠ 200%Z ∧ statusCode response ≠ 404%Z) →
   out r = Normal tt ∧ st r = s ∧
   invocations OpRegister (tr r) = 0 ∧ requests (tr r) = [q] ∧
   ∃ t logs, Forall resolution_event t ∧ Forall log_event logs ∧ logs ≠ [] ∧
     tr r = Invoke OpRenew :: t ++ Http q :: logs).
Proof.
  unfold renew. mrun.
  destruct (buildEurekaUrl_cases env (config s))
    as [(t & e & Ht & Hk)|(t & host & Ht & Hk)]; rewrite Hk by done; clear Hk.
  { apply dns_event_resolution in Ht. by silence Ht. }
  unfold send. mrun.
  set (q0 := {| req_method := PUT; req_url := _; req_body := _ |}).
  destruct (request env q0) as [[error|] [response|] body] eqn:Hreply; silence Ht;
    intros [= <-]; rewrite Hreply; cbn.
  - split_and!; [done..|]. intros _. split_and!; [done..|].
    refine (ex_intro _ t (ex_intro _ _ (conj Ht (conj _ (conj _ eq_refl))))); [|done].
    by repeat constructor.
  - split_and!; [done..|]. intros _. split_and!; [done..|].
    refine (ex_intro _ t (ex_intro _ _ (conj Ht (conj _ (conj _ eq_refl))))); [|done].
    by repeat constructor.
  - destruct (Z.eqb_spec (statusCode response) 200) as [H200|H200]; cbn.
    { split_and!; [done|intros r0 _ [= <-]; congruence|].
      intros [[? [=]]|(r0 & [= <-] & ? & _)]. done. }
    destruct (Z.eqb_spec (statusCode response) 404) as [H404|H404]; cbn.
    + rewrite ?omap_app, ?invocations_app, ?Hr, ?Hq, ?Hs, ?Hi. cbn.
      split_and!; [done| |].
      * intros r0 _ _ _. split; [apply register_invoked_once|].
        exists t. split; [done|]. reflexivity.
      * intros [[? [=]]|(r0 & [= <-] & _ & ?)]. done.
    + split_and!; [done|intros r0 _ [= <-]; congruence|].
      intros _. split_and!; [done..|].
      refine (ex_intro _ t (ex_intro _ _ (conj Ht (conj _ (conj _ eq_refl))))); [|done].
    by repeat constructor.
  - split_and!; [done|done|]. intros [[? [=]]|(r0 & [=] & _)].
Qed.

Lemma lookups_same_view (env : Env) (s1 s2 : Eureka) (v : value) :
  this_cache s1 = this_cache s2 →
  out (getInstancesByAppId env v s1) = out (getInstancesByAppId env v s2) ∧
  out (getInstancesByVipAddress env v s1) = out (getInstancesByVipAddress env v s2).
Proof.
  intros Hview. unfold getInstancesByAppId, getInstancesByVipAddress.
  destruct (truthy v); cbn [negb]; [|done].
  split.
  - destruct (call_toUpperCase env v) as [key|e]; mrun; [|done].
    rewrite Hview. by destruct (truthy_member _).
  - mrun. rewrite Hview. by destruct (truthy_member _).
Qed.

(** C2, as amended. When [fetchRegistry] ends in an exception the reader
    still sees the previous cache. A transport error and a status other than
    200 leave the client as it was and reach the caller's callback as an
    error. A 200 answer with a payload that [JSON.parse] rejects leaves the
    client as it was. A 200 answer whose payload is an empty registry leaves
    the client as it was, logs a warning and invokes the callback with
    [null]. *)
Theorem failed_fetch_keeps_cache (env : Env) (s : Eureka) :
  wf s →
  let r := fetchRegistry env report s in
  (out r ≠ Normal tt → this_cache (st r) = this_cache s) ∧
  (∀ q, head (requests (tr r)) = Some q →
     let reply := request env q in
     (∀ e, rp_error reply = Some e →
        st r = s ∧ reported (tr r) = [Some e]) ∧
     (∀ response,
        rp_error reply = None → rp_response reply = Some response →
        statusCode response ≠ 200%Z →
        st r = s ∧ reported (tr r) = [Some fetch_failed]) ∧
     (∀ response,
        rp_error reply = None → rp_response reply = Some response →
        statusCode response = 200%Z →
        (∀ e, JSON_parse env (ToString (rp_body reply)) = Throw e → st r = s) ∧
        (∀ registry,
           JSON_parse env (ToString (rp_body reply)) = Normal registry →
           truthy registry = false →
           st r = s ∧ reported (tr r) = [None] ∧
           Log LogWarn [LStr "Unable to transform empty registry"] ∈ tr r))).
Proof.
  intros Hwf. unfold fetchRegistry. mrun.
  destruct (buildEurekaUrl_cases env (config s))
    as [(t & e & Ht & Hk)|(t & host & Ht & Hk)]; rewrite Hk by done; clear Hk.
  { apply dns_event_resolution in Ht. by silence Ht. }
  unfold send. mrun.
  set (q0 := {| req_method := GET; req_url := _; req_body := _ |}).
  destruct (request env q0) as [[error|] [response|] body] eqn:Hreply; silence Ht.
  - split; [done|]. intros q [= <-]. rewrite Hreply. cbn.
    split_and!; [by intros e [= <-]|done..].
  - split; [done|]. intros q [= <-]. rewrite Hreply. cbn.
    split_and!; [by intros e [= <-]|done..].
  - destruct (Z.eqb_spec (statusCode response) 200) as [H200|H200]; cbn.
    2: { split; [done|]. intros q [= <-]. rewrite Hreply. cbn.
         split_and!; [done|by intros r0 _ [= <-] _|by intros r0 _ [= <-] ?]. }
    destruct (JSON_parse env (ToString body)) as [registry|e] eqn:Hparse; cbn.
    2: { split; [done|]. intros q [= <-]. rewrite Hreply. cbn.
         split_and!; [done|by intros r0 _ [= <-] ?|]. intros r0 _ _ _.
         rewrite Hparse. by split. }
    destruct (transformRegistry_run env registry s Hwf) as (_ & _ & _ & _ & Hthrow & Hfalsy).
    split.
    + destruct (out (transformRegistry env registry s)) as [[]|e] eqn:Hout; cbn; [done|].
      intros _. by apply Hthrow.
    + intros q [= <-]. rewrite Hreply. cbn.
      split_and!; [done|by intros r0 _ [= <-] ?|]. intros r0 _ _ _.
      rewrite Hparse. split; [done|]. intros ? [= <-] Hf.
      rewrite (Hfalsy Hf). cbn. split_and!; [done..|].
      apply elem_of_cons. right. apply elem_of_app. right. set_solver.
  - split; [done|]. intros q [= <-]. rewrite Hreply. cbn. done.
Qed.

(** C1. While a registry is being installed, by [transformRegistry] alone or
    as part of [fetchRegistry], every state of the client shows a reader
    either the cache object that was current before, unmodified, or the
    finished new one; and the new object is the one the same registry
    produces on any other client, so none of its two indices comes from an
    older cache. *)
Theorem registry_swap_atomic (env : Env) (s : Eureka) :
  wf s →
  (∀ registry,
     let r := transformRegistry env registry s in
     (∀ σ, σ ∈ snapshots (tr r) →
        this_cache σ = this_cache s ∨ this_cache σ = this_cache (st r)) ∧
     (∀ s', wf s' →
        this_cache (st r) = this_cache s ∨
        this_cache (st r) = this_cache (st (transformRegistry env registry s')))) ∧
  (let r := fetchRegistry env report s in
   (∀ σ, σ ∈ snapshots (tr r) →
      this_cache σ = this_cache s ∨ this_cache σ = this_cache (st r)) ∧
   (∀ s', wf s' → config s' = config s →
      this_cache (st r) = this_cache s ∨
      this_cache (st r) = this_cache (st (fetchRegistry env report s')))).
Proof.
  intros Hwf.
  assert (Hsnap : ∀ registry σ,
    σ ∈ snapshots (tr (transformRegistry env registry s)) →
    this_cache σ = this_cache s ∨
    this_cache σ = this_cache (st (transformRegistry env registry s))).
  { intros registry σ Hσ.
    destruct (transformRegistry_run env registry s Hwf) as (_ & _ & _ & Hall & _).
    rewrite Forall_forall in Hall. destruct (Hall σ Hσ) as [?| ->]; auto. }
  split.
  { intros registry r. split; [apply Hsnap|].
    intros s' Hwf'. by apply transformRegistry_independent. }
  unfold fetchRegistry. mrun.
  destruct (buildEurekaUrl_cases env (config s))
    as [(t & e & Ht & Hk)|(t & host & Ht & Hk)].
  { rewrite Hk by done. apply dns_event_resolution in Ht. silence Ht.
    split; [by intros σ Hσ%elem_of_nil|]. intros; by left. }
  split.
  - rewrite Hk by done. clear Hk. unfold send. mrun.
    destruct (request env _) as [[error|] [response|] body]; silence Ht;
      try by intros σ Hσ%elem_of_nil.
    destruct (statusCode response =? 200)%Z; cbn; [|by intros σ Hσ%elem_of_nil].
    destruct (JSON_parse env (ToString body)) as [registry|e]; cbn;
      [|by intros σ Hσ%elem_of_nil].
    specialize (Hsnap registry). unfold snapshots in Hsnap.
    destruct (out (transformRegistry env registry s)) as [[]|e]; cbn; [|done].
    by rewrite omap_app, app_nil_r.
  - intros s' Hwf' Hcfg. rewrite !Hk by done. clear Hk. unfold send. mrun.
    destruct (request env _) as [[error|] [response|] body]; cbn; try by left.
    destruct (statusCode response =? 200)%Z; cbn; [|by left].
    destruct (JSON_parse env (ToString body)) as [registry|e]; cbn; [|by left].
    destruct (transformRegistry_independent env registry s s' Hwf Hwf') as [Ho Hi].
    cbn in Ho, Hi. rewrite <- Ho.
    by destruct (out (transformRegistry env registry s)) as [[]|e].
Qed.

(** ** The cache reference stays valid *)

Lemma wf_new_Eureka (c : Config) : wf (new_Eureka c).
Proof. unfold wf. cbn. lia. Qed.

Lemma fetchRegistry_wf (env : Env) (s : Eureka) :
  wf s → wf (st (fetchRegistry env report s)).
Proof.
  intros Hwf. unfold fetchRegistry. mrun.
  destruct (buildEurekaUrl_cases env (config s))
    as [(t & e & Ht & Hk)|(t & host & Ht & Hk)]; rewrite Hk by done; clear Hk; [done|].
  unfold send. mrun.
  destruct (request env _) as [[error|] [response|] body]; cbn; try done.
  destruct (statusCode response =? 200)%Z; cbn; [|done].
  destruct (JSON_parse env (ToString body)) as [registry|e]; cbn; [|done].
  destruct (transformRegistry_run env registry s Hwf) as (_ & Hwf' & _).
  by destruct (out (transformRegistry env registry s)) as [[]|e].
Qed.

Lemma register_state (env : Env) (s : Eureka) :
  st (register env report s) = set_status "UP" s ∧
  st (register env noop s) = set_status "UP" s.
Proof.
  unfold register. mrun.
  destruct (buildEurekaUrl_cases env (config (set_status "UP" s)))
    as [(t & e & Ht & Hk)|(t & host & Ht & Hk)]; rewrite !Hk by done; clear Hk; [done|].
  unfold send. mrun.
  destruct (request env _) as [[error|] [response|] body]; cbn; try done.
  by destruct (statusCode response =? 204)%Z.
Qed.

Lemma renew_wf (env : Env) (s : Eureka) : wf s → wf (st (renew env s)).
Proof.
  intros Hwf. unfold renew. mrun.
  destruct (buildEurekaUrl_cases env (config s))
    as [(t & e & Ht & Hk)|(t & host & Ht & Hk)]; rewrite Hk by done; clear Hk; [done|].
  unfold send. mrun.
  destruct (request env _) as [[error|] [response|] body]; cbn; try done.
  destruct (statusCode response =? 200)%Z; cbn; [done|].
  destruct (statusCode response =? 404)%Z; cbn; [|done].
  by rewrite (proj2 (register_state env s)).
Qed.

(** * The scenarios, run *)

Import Examples.

(** ** End-to-end checks *)

Example fetch_then_lookup_by_app :
  out (getInstancesByAppId env_up (VStr "orders") (st (fetchRegistry env_up report s0))) =
    Normal (Data (VArr [orders_1; orders_2])).
Proof. vm_compute. reflexivity. Qed.

Example fetch_then_lookup_by_vip :
  out (getInstancesByVipAddress env_up (VStr "orders.vip")
         (st (fetchRegistry env_up report s0))) =
    Normal (Data (VArr [orders_1; orders_2])).
Proof. vm_compute. reflexivity. Qed.

Example lookup_before_any_fetch :
  getInstancesByAppId env_up (VStr "orders") s0 =
    MkRes s0 [Log LogWarn [LStr "Unable to retrieve instances for appId: orders"]]
      (Normal (Data VUndefined)).
Proof. vm_compute. reflexivity. Qed.

Example register_accepted :
  reported (tr (register env_up report s0)) = [None] ∧
  requests (tr (register env_up report s0)) = [post_request].
Proof. vm_compute. split; reflexivity. Qed.

Example register_rejected :
  reported (tr (register env_busy report s0)) =
    [Some (Error "eureka registration FAILED: status: 500 body: busy")].
Proof. vm_compute. reflexivity. Qed.

Example resolve_through_dns :
  tr (lookupCurrentEurekaHost env_dns (λ host, emit (Resolved host)) s_dns) =
    [DnsTxt "txt.us-east-1.eureka.example.com";
     DnsTxt "txt.us-east-1b.eureka.example.com";
     Log LogDebug [LStr "Found Eureka Server @ ";
                   LTxt [["ec2-1-2-3-4.compute.example.com"]]];
     Resolved (VStr "ec2-1-2-3-4.compute.example.com")].
Proof. vm_compute. reflexivity. Qed.

Example mixed_addresses_one_key :
  let c := this_cache (st (transformApp env_up mixed_application 0 s0)) in
  read env_up (vip c) "billing.a" =
    Data (VArr [obj [("vipAddress", VStr "billing.a")];
                obj [("vipAddress", VStr "billing.b")]]) ∧
  read env_up (vip c) "billing.b" = Data VUndefined.
Proof. vm_compute. split; reflexivity. Qed.

(** ** The theorems at the scenarios *)

Lemma registry_swap_atomic_witness :
  wf s0 ∧
  ∀ σ, σ ∈ snapshots (tr (fetchRegistry env_up report s0)) →
    this_cache σ = this_cache s0 ∨
    this_cache σ = this_cache (st (fetchRegistry env_up report s0)).
Proof.
  assert (Hwf : wf s0) by (unfold wf; cbn; lia).
  split; [exact Hwf|].
  exact (proj1 (proj2 (registry_swap_atomic env_up s0 Hwf))).
Defined.

Lemma failed_fetch_keeps_cache_witness :
  wf s0 ∧
  head (requests (tr (fetchRegistry env_down report s0))) = Some get_request ∧
  rp_error (request env_down get_request) = Some (Error "connect ECONNREFUSED") ∧
  st (fetchRegistry env_down report s0) = s0 ∧
  reported (tr (fetchRegistry env_down report s0)) = [Some (Error "connect ECONNREFUSED")].
Proof.
  assert (Hwf : wf s0) by (unfold wf; cbn; lia).
  assert (Hq : head (requests (tr (fetchRegistry env_down report s0))) = Some get_request)
    by (vm_compute; reflexivity).
  assert (He : rp_error (request env_down get_request) = Some (Error "connect ECONNREFUSED"))
    by (vm_compute; reflexivity).
  split_and!; [exact Hwf|exact Hq|exact He|..];
    apply (proj1 (proj2 (failed_fetch_keeps_cache env_down s0 Hwf) get_request Hq) _ He).
Defined.

Lemma heartbeat_response_witness :
  head (requests (tr (renew env_gone s0))) = Some put_request ∧
  invocations OpRegister (tr (renew env_gone s0)) = 1.
Proof.
  assert (Hq : head (requests (tr (renew env_gone s0))) = Some put_request)
    by (vm_compute; reflexivity).
  split; [exact Hq|].
  refine (proj1 (proj1 (proj2 (heartbeat_response env_gone s0 put_request Hq))
                   {| statusCode := 404 |} _ _ _)); vm_compute; reflexivity.
Defined.

Lemma register_reports_witness :
  head (requests (tr (register env_up report s0))) = Some post_request ∧
  reported (tr (register env_up report s0)) = [None].
Proof.
  assert (Hq : head (requests (tr (register env_up report s0))) = Some post_request)
    by (vm_compute; reflexivity).
  split; [exact Hq|].
  apply (proj1 (register_reports env_up s0)).
  exists post_request, {| statusCode := 204 |}.
  split_and!; [exact Hq|vm_compute; reflexivity..].
Defined.

Lemma dns_failure_is_fatal_witness :
  "txt.us-east-1b.eureka.example.com" ∈
    dns_queries (tr (lookupCurrentEurekaHost env_dns_broken
                       (λ host, emit (Resolved host)) s_dns)) ∧
  dns_resolveTxt env_dns_broken "txt.us-east-1b.eureka.example.com" =
    DnsErr (Error "queryTxt ENOTFOUND") ∧
  dns_mode env_dns_broken (config s_dns) = true.
Proof.
  assert (Hq : "txt.us-east-1b.eureka.example.com" ∈
    dns_queries (tr (lookupCurrentEurekaHost env_dns_broken
                       (λ host, emit (Resolved host)) s_dns))).
  { vm_compute. apply list_elem_of_further, list_elem_of_here. }
  assert (He : dns_resolveTxt env_dns_broken "txt.us-east-1b.eureka.example.com" =
    DnsErr (Error "queryTxt ENOTFOUND")) by (vm_compute; reflexivity).
  split_and!; [exact Hq|exact He|].
  exact (proj1 (dns_failure_is_fatal env_dns_broken s_dns _ _ Hq He)).
Defined.

Lemma app_lookup_case_insensitive_witness :
  toUpperCase env_up "myapp" = toUpperCase env_up "MYAPP" ∧
  ∀ s, out (getInstancesByAppId env_up (VStr "myapp") s) =
       out (getInstancesByAppId env_up (VStr "MYAPP") s).
Proof.
  assert (Hab : toUpperCase env_up "myapp" = toUpperCase env_up "MYAPP")
    by (vm_compute; reflexivity).
  split; [exact Hab|].
  intros s.
  exact (proj1 (proj1 (app_lookup_case_insensitive env_up "myapp" "MYAPP" Hab) s)).
Defined.

Lemma empty_instance_list_is_wrapped_witness :
  get (obj [("name", VStr "idle"); ("instance", VArr [])]) "instance" = Normal (VArr []) ∧
  heap s0 !! 0 = Some empty_cache ∧
  normalized (VArr []) = VArr [VArr []].
Proof.
  assert (Hi : get (obj [("name", VStr "idle"); ("instance", VArr [])]) "instance" =
               Normal (VArr [])) by (vm_compute; reflexivity).
  assert (Hc : heap s0 !! 0 = Some empty_cache) by reflexivity.
  split_and!; [exact Hi|exact Hc|].
  exact (proj1 (empty_instance_list_is_wrapped env_up _ 0 s0 empty_cache Hi Hc)).
Defined.

(** ** Where the statements of the specification fail *)

(** An OK answer with the payload [null]: nothing is installed, a warning is
    logged, and the caller's callback is invoked with [null], not with an
    error. *)
Lemma empty_payload_reported_as_success :
  let r := fetchRegistry env_empty report s0 in
  requests (tr r) = [get_request] ∧
  request env_empty get_request = answer 200 (VStr "null") ∧
  JSON_parse env_empty "null" = Normal VNull ∧
  this_cache (st r) = this_cache s0 ∧
  reported (tr r) = [None] ∧
  ¬ ∃ e, Some e ∈ reported (tr r).
Proof.
  split_and!; try (vm_compute; reflexivity).
  intros (e & He).
  assert (Hr : reported (tr (fetchRegistry env_empty report s0)) = [None])
    by (vm_compute; reflexivity).
  rewrite Hr in He. apply list_elem_of_singleton in He. discriminate.
Qed.

(** ** Where the code departs from its documentation

    The two indices of the cache are plain objects, whose properties are
    looked up and assigned through the prototype chain; an entry of one
    instance is told from a list by its [length]. *)

(** C7. The lookup of the virtual-IP address [constructor] on a client that
    holds no such entry, before any fetch and after one: the result is the
    member that the index object inherits from [Object.prototype], and no
    warning is logged; for [__proto__] the result is the prototype itself. An
    address without entry that names no inherited member, such as
    [payments.vip], gives [undefined] after the warning. *)
Theorem vip_lookup_returns_inherited_member :
  let fetched := st (fetchRegistry env_up report s0) in
  own (vip (this_cache s0)) !! "constructor" = None ∧
  own (vip (this_cache fetched)) !! "constructor" = None ∧
  getInstancesByVipAddress env_up (VStr "constructor") s0 =
    MkRes s0 [] (Normal (Native "Object.prototype.constructor")) ∧
  getInstancesByVipAddress env_up (VStr "constructor") fetched =
    MkRes fetched [] (Normal (Native "Object.prototype.constructor")) ∧
  getInstancesByVipAddress env_up (VStr "__proto__") s0 =
    MkRes s0 [] (Normal (Native "Object.prototype")) ∧
  getInstancesByVipAddress env_up (VStr "payments.vip") s0 =
    MkRes s0
      [Log LogWarn [LStr "Unable to retrieves instances for vipAddress: payments.vip"]]
      (Normal (Data VUndefined)).
Proof. split_and!; vm_compute; reflexivity. Qed.

(** C8. A record with a truthy [length] property of its own takes the list
    branch when it stands alone: the record itself, not a one-element
    sequence, is stored under the name, reading its element 0 fails and
    nothing is stored under its address, while the one-element list of the
    same record is indexed normally. *)
Theorem record_with_length_not_uniform :
  let fields : gmap string value := {[ "name" := VStr "A" ]} in
  let single :=
    transformApp env_up (VObj (<["instance" := VObj sized_record]> fields)) 0 s0 in
  let listed :=
    transformApp env_up (VObj (<["instance" := VArr [VObj sized_record]]> fields)) 0 s0 in
  out single = Throw (TypeError "Cannot read property 'vipAddress' of undefined") ∧
  out listed = Normal tt ∧
  read env_up (app (this_cache (st single))) "A" = Data (VObj sized_record) ∧
  read env_up (app (this_cache (st listed))) "A" = Data (VArr [VObj sized_record]) ∧
  read env_up (vip (this_cache (st single))) "v" = Data VUndefined ∧
  read env_up (vip (this_cache (st listed))) "v" = Data (VArr [VObj sized_record]) ∧
  heap (st single) !! 0 ≠ heap (st listed) !! 0.
Proof.
  split_and!; try (vm_compute; reflexivity).
  intros H. apply (f_equal (λ c, c ≫= λ c, own (vip c) !! "v")) in H.
  vm_compute in H. discriminate.
Qed.

(** C9. A registry whose application has a first instance with the address
    [__proto__] and a second one with the address [length]: the registry is
    installed without an exception, the application index holds the
    sequence under the upper-cased name, but the virtual-IP index gets no key
    at all; the sequence has become its prototype, so that the address of
    the second instance, and the index 0, are answered from the sequence
    itself without a warning. *)
Theorem proto_address_stores_no_key :
  let r := transformRegistry env_up proto_registry s0 in
  let c := this_cache (st r) in
  out r = Normal tt ∧
  own (app c) !! "BILLING" = Some proto_instances ∧
  own (vip c) = ∅ ∧
  proto (vip c) = ProtoOf proto_instances ∧
  getInstancesByVipAddress env_up (VStr "length") (st r) =
    MkRes (st r) [] (Normal (Data (VNum 2))) ∧
  getInstancesByVipAddress env_up (VStr "0") (st r) =
    MkRes (st r) []
      (Normal (Data (obj [("vipAddress", VStr "__proto__"); ("instanceId", VStr "i-1")]))) ∧
  getInstancesByVipAddress env_up (VStr "push") (st r) =
    MkRes (st r) [] (Normal (Native "Array.prototype.push")).
Proof. split_and!; vm_compute; reflexivity. Qed.
